(** * TPC-H sales analytics dashboard: the filter-driven query/cache pipeline

    A shallow embedding of [TPC_daesang.py].  The warehouse relations are
    lists of records, the Snowpark query-builder calls ([filter], [join],
    [group_by], [agg], [order_by], [limit]) are list functions, the
    [@st.cache_data] decorator is a finite map threaded through an explicit
    application state, and the page is the list of elements it renders. *)

From Stdlib Require Import ZArith QArith_base.
From stdpp Require Import base decidable countable list sorting gmap strings.

Close Scope Q_scope.
Local Open Scope Z_scope.

(** ** Dates

    [O_ORDERDATE] is a calendar date.  The page passes [str(date)] to the
    pipeline and the warehouse coerces that ISO text back to a date before
    comparing, so the embedding carries the date itself. *)

Record date := Date { year : Z; month : Z; day : Z }.

#[global] Instance date_eq_dec : EqDecision date.
Proof. solve_decision. Defined.

#[global] Instance date_countable : Countable date :=
  inj_countable'
    (λ d, (year d, month d, day d))
    (λ t, Date t.1.1 t.1.2 t.2)
    (λ d, match d with Date _ _ _ => eq_refl end).

#[global] Instance date_inhabited : Inhabited date := populate (Date 1970 1 1).

(** Chronological order: lexicographic on (year, month, day). *)
Definition date_leb (a b : date) : bool :=
  (year a <? year b)
  || ((year a =? year b)
      && ((month a <? month b)
          || ((month a =? month b) && (day a <=? day b)))).

Definition date_le (a b : date) : Prop := date_leb a b = true.

#[global] Instance date_le_dec : RelDecision date_le.
Proof. intros a b. unfold date_le. apply _. Defined.

(** [F.date_trunc("MONTH", d)]: the first day of [d]'s month. *)
Definition date_trunc_month (d : date) : date :=
  {| year := year d; month := month d; day := 1 |}.

(** ** The warehouse schema

    Only the columns the page reads are kept.  TPC-H declares every column
    [NOT NULL], so a column is its value type; [O_TOTALPRICE] is a
    fixed-point number with two decimals, kept as its count of cents. *)

Record orders_row := {
  O_ORDERKEY : Z;
  O_CUSTKEY : Z;
  O_ORDERDATE : date;
  O_TOTALPRICE : Z;
  O_ORDERPRIORITY : string
}.

Record customer_row := {
  C_CUSTKEY : Z;
  C_NATIONKEY : Z;
  C_MKTSEGMENT : string
}.

Record nation_row := {
  N_NATIONKEY : Z;
  N_NAME : string;
  N_REGIONKEY : Z
}.

Record region_row := {
  R_REGIONKEY : Z;
  R_NAME : string
}.

Record lineitem_row := {
  L_ORDERKEY : Z;
  L_EXTENDEDPRICE : Z
}.

Record database := {
  ORDERS : list orders_row;
  CUSTOMER : list customer_row;
  NATION : list nation_row;
  REGION : list region_row;
  LINEITEM : list lineitem_row
}.

(** ** Query-builder operations *)

(** [left.join(right, on)]: inner join, every matching pair. *)
Definition join {A B} (left : list A) (right : list B) (on : A → B → bool)
  : list (A * B) :=
  a ← left; b ← right; if on a b then [(a, b)] else [].

(** [df.with_column(name, expr)]: every row with one more column. *)
Definition with_column {A B} (expr : A → B) (df : list A) : list (A * B) :=
  (λ r, (r, expr r)) <$> df.

(** [df.group_by(key)]: one group per distinct key value, each with its rows.
    The engine leaves the order of the groups open; the embedding fixes one. *)
Definition group_by {A K} `{EqDecision K} (key : A → K) (df : list A)
  : list (K * list A) :=
  (λ k, (k, filter (λ r, key r = k) df)) <$> remove_dups (key <$> df).

(** [grouped.agg(...)]: one output row per group. *)
Definition agg {A K R} (row : K → list A → R) (grouped : list (K * list A))
  : list R :=
  (λ g, row g.1 g.2) <$> grouped.

(** [df.order_by(...)] for a given row order, and [df.limit(n)]. *)
Definition order_by {A} (R : relation A) `{∀ x y, Decision (R x y)}
  (df : list A) : list A := merge_sort R df.

Definition limit {A} (n : nat) (df : list A) : list A := take n df.

(** Aggregate functions over the values of a column.  [SUM] and [AVG] of no
    rows are NULL; [COUNT] of no rows is 0. *)
Definition total (vals : list Z) : Z := foldr Z.add 0 vals.

Definition F_sum (vals : list Z) : option Z :=
  match vals with
  | [] => None
  | _ => Some (total vals)
  end.

Definition F_count {A} (vals : list A) : nat := length vals.

(** The mean is kept as the exact fraction sum/count. *)
Definition F_avg (vals : list Z) : option Q :=
  match vals with
  | [] => None
  | _ => Some (Qmake (total vals) (Pos.of_nat (length vals)))
  end.

(** Order of a nullable numeric column: NULL sorts as the largest value
    (last when ascending, first when descending). *)
Definition null_largest_le (a b : option Z) : Prop :=
  match a, b with
  | _, None => True
  | None, Some _ => False
  | Some x, Some y => x ≤ y
  end.

#[global] Instance null_largest_le_dec : RelDecision null_largest_le.
Proof. intros [x|] [y|]; simpl; apply _. Defined.

(** ** The base relation *)

Definition joined_row : Type :=
  orders_row * customer_row * nation_row * region_row.

Definition ord (j : joined_row) : orders_row := j.1.1.1.
Definition cust (j : joined_row) : customer_row := j.1.1.2.
Definition nat_ (j : joined_row) : nation_row := j.1.2.
Definition reg (j : joined_row) : region_row := j.2.

Definition base_df (db : database) (_selected_regions : list string)
  (start_date end_date : date) : list joined_row :=
  filter (λ j, R_NAME (reg j) ∈ _selected_regions)
    (join
       (join
          (join
             (filter (λ o, date_le start_date (O_ORDERDATE o)
                           ∧ date_le (O_ORDERDATE o) end_date)
                (ORDERS db))
             (CUSTOMER db)
             (λ o c, bool_decide (O_CUSTKEY o = C_CUSTKEY c)))
          (NATION db)
          (λ oc n, bool_decide (C_NATIONKEY oc.2 = N_NATIONKEY n)))
       (REGION db)
       (λ ocn r, bool_decide (N_REGIONKEY ocn.2 = R_REGIONKEY r))).

(** ** The eight aggregate views

    Each result table is a list of rows; a [SUM] or [AVG] column is
    nullable, a [COUNT] column is not. *)

Module Monthly.
Record row := { YEAR_MONTH : date; REVENUE : option Z }.
End Monthly.

Module ByRegion.
Record row := { R_NAME : string; REVENUE : option Z; ORDERS : nat }.
End ByRegion.

Module BySegment.
Record row := {
  C_MKTSEGMENT : string;
  REVENUE : option Z;
  ORDERS : nat;
  AVG_ORDER : option Q
}.
End BySegment.

Module ByPriority.
Record row := { O_ORDERPRIORITY : string; ORDERS : nat; REVENUE : option Z }.
End ByPriority.

Module ByNation.
Record row := { N_NAME : string; R_NAME : string; REVENUE : option Z }.
End ByNation.

Record bundle := {
  total_revenue : option Z;
  total_orders : nat;
  avg_order_value : option Q;
  monthly_revenue : list Monthly.row;
  region_revenue : list ByRegion.row;
  segment_analysis : list BySegment.row;
  priority_analysis : list ByPriority.row;
  nation_revenue : list ByNation.row
}.

Definition price (j : joined_row) : Z := O_TOTALPRICE (ord j).

(** The three row orders the page sorts by. *)
Definition by_year_month : relation Monthly.row :=
  λ a b, date_le (Monthly.YEAR_MONTH a) (Monthly.YEAR_MONTH b).

Definition by_priority_label : relation ByPriority.row :=
  λ a b, String.le (ByPriority.O_ORDERPRIORITY a) (ByPriority.O_ORDERPRIORITY b).

Definition by_revenue_desc : relation ByNation.row :=
  λ a b, null_largest_le (ByNation.REVENUE b) (ByNation.REVENUE a).

#[global] Instance by_year_month_dec : RelDecision by_year_month.
Proof. intros a b. unfold by_year_month. apply _. Defined.

#[global] Instance by_priority_label_dec : RelDecision by_priority_label.
Proof. intros a b. unfold by_priority_label. apply _. Defined.

#[global] Instance by_revenue_desc_dec : RelDecision by_revenue_desc.
Proof. intros a b. unfold by_revenue_desc. apply _. Defined.

Definition monthly_revenue_of (base : list joined_row) : list Monthly.row :=
  order_by by_year_month
    (agg (λ ym g, {| Monthly.YEAR_MONTH := ym;
                     Monthly.REVENUE := F_sum (price ∘ fst <$> g) |})
       (group_by snd
          (with_column (λ j, date_trunc_month (O_ORDERDATE (ord j))) base))).

Definition region_revenue_of (base : list joined_row) : list ByRegion.row :=
  agg (λ name g, {| ByRegion.R_NAME := name;
                    ByRegion.REVENUE := F_sum (price <$> g);
                    ByRegion.ORDERS := F_count (O_ORDERKEY ∘ ord <$> g) |})
    (group_by (λ j, R_NAME (reg j)) base).

Definition segment_analysis_of (base : list joined_row) : list BySegment.row :=
  agg (λ seg g, {| BySegment.C_MKTSEGMENT := seg;
                   BySegment.REVENUE := F_sum (price <$> g);
                   BySegment.ORDERS := F_count (O_ORDERKEY ∘ ord <$> g);
                   BySegment.AVG_ORDER := F_avg (price <$> g) |})
    (group_by (λ j, C_MKTSEGMENT (cust j)) base).

Definition priority_analysis_of (base : list joined_row)
  : list ByPriority.row :=
  order_by by_priority_label
    (agg (λ prio g, {| ByPriority.O_ORDERPRIORITY := prio;
                       ByPriority.ORDERS := F_count (O_ORDERKEY ∘ ord <$> g);
                       ByPriority.REVENUE := F_sum (price <$> g) |})
       (group_by (λ j, O_ORDERPRIORITY (ord j)) base)).

Definition nation_revenue_of (base : list joined_row) : list ByNation.row :=
  limit 10
    (order_by by_revenue_desc
       (agg (λ k g, {| ByNation.N_NAME := k.1;
                       ByNation.R_NAME := k.2;
                       ByNation.REVENUE := F_sum (price <$> g) |})
          (group_by (λ j, (N_NAME (nat_ j), R_NAME (reg j))) base))).

(** The body of [load_filtered_data]: what runs on a cache miss. *)
Definition load_filtered_data_uncached (db : database)
  (_selected_regions : list string) (start_date end_date : date) : bundle :=
  let base := base_df db _selected_regions start_date end_date in
  {| total_revenue := F_sum (price <$> base);
     total_orders := length base;
     avg_order_value := F_avg (price <$> base);
     monthly_revenue := monthly_revenue_of base;
     region_revenue := region_revenue_of base;
     segment_analysis := segment_analysis_of base;
     priority_analysis := priority_analysis_of base;
     nation_revenue := nation_revenue_of base |}.

(** ** The cache

    [@st.cache_data] keys an entry by the hashed arguments of the call, and
    it leaves out every parameter whose name starts with an underscore.
    The first parameter is [_selected_regions], so the key of a call is its
    two dates. *)
Definition cache_key (_selected_regions : list string)
  (start_date end_date : date) : date * date :=
  (start_date, end_date).

(** The warehouse actions one run of the body issues, in order. *)
Inductive query :=
  | q_total_revenue | q_total_orders | q_avg_order_value
  | q_monthly_revenue | q_region_revenue | q_segment_analysis
  | q_priority_analysis | q_nation_revenue.

Definition pipeline_queries : list query :=
  [q_total_revenue; q_total_orders; q_avg_order_value; q_monthly_revenue;
   q_region_revenue; q_segment_analysis; q_priority_analysis;
   q_nation_revenue].

(** What outlives one run of the script: the session's view of the
    warehouse, the cache, and the queries issued so far. *)
Record app := {
  session : database;
  cache : gmap (date * date) bundle;
  issued : list query
}.

Definition start (db : database) : app :=
  {| session := db; cache := ∅; issued := [] |}.

(** [load_filtered_data] as the page calls it, through its cache. *)
Definition load_filtered_data (a : app) (_selected_regions : list string)
  (start_date end_date : date) : bundle * app :=
  let key := cache_key _selected_regions start_date end_date in
  match cache a !! key with
  | Some data => (data, a)
  | None =>
      let data :=
        load_filtered_data_uncached (session a) _selected_regions
          start_date end_date in
      (data,
       {| session := session a;
          cache := <[key := data]> (cache a);
          issued := issued a ++ pipeline_queries |})
  end.

(** ** The page *)

(** A metric tile shows one scalar of the bundle; how the tile spells the
    number out is left to the renderer. *)
Inductive metric_value :=
  | currency0 (v : option Z)
  | integer (n : nat)
  | currency2 (v : option Q).

Inductive chart :=
  | monthly_chart (data : list Monthly.row)
  | region_chart (data : list ByRegion.row)
  | segment_chart (data : list BySegment.row)
  | priority_chart (data : list ByPriority.row)
  | nation_chart (data : list ByNation.row).

Inductive dataframe :=
  | region_table (data : list ByRegion.row)
  | segment_table (data : list BySegment.row).

Inductive element :=
  | st_header (title : string)
  | st_metric (label : string) (value : metric_value)
  | st_divider
  | st_altair_chart (c : chart)
  | st_expander (label : string) (df : dataframe)
  | st_warning (msg : string).

Definition prompt : string := "지역과 날짜 범위를 선택해주세요.".

Definition dashboard (data : bundle) : list element :=
  [ st_header "📊 핵심 지표";
    st_metric "총 매출" (currency0 (total_revenue data));
    st_metric "총 주문 수" (integer (total_orders data));
    st_metric "평균 주문액" (currency2 (avg_order_value data));
    st_divider;
    st_header "📈 매출 트렌드";
    st_altair_chart (monthly_chart (monthly_revenue data));
    st_divider;
    st_header "🌍 지역별 매출";
    st_altair_chart (region_chart (region_revenue data));
    st_header "🏢 시장 세그먼트별 분석";
    st_altair_chart (segment_chart (segment_analysis data));
    st_divider;
    st_header "🚨 주문 우선순위 분포";
    st_altair_chart (priority_chart (priority_analysis data));
    st_header "🏆 Top 10 국가별 매출";
    st_altair_chart (nation_chart (nation_revenue data));
    st_divider;
    st_expander "📋 Raw Data - 지역별 매출" (region_table (region_revenue data));
    st_expander "📋 Raw Data - 세그먼트별 분석"
      (segment_table (segment_analysis data)) ].

(** One run of the script from the [if] on, for the current widget values:
    the elements rendered in the main area and the state left behind. *)
Definition page (a : app) (selected_regions : list string)
  (date_range : list date) : list element * app :=
  if bool_decide (length date_range = 2%nat)
     && negb (bool_decide (selected_regions = []))
  then
    let '(data, a') :=
      load_filtered_data a selected_regions
        (date_range !!! 0%nat) (date_range !!! 1%nat) in
    (dashboard data, a')
  else ([st_warning prompt], a).

(** [reruns a a']: some number of reruns of the script, each with whatever
    the widgets hold, lead from state [a] to state [a']. *)
Inductive reruns (a : app) : app → Prop :=
  | reruns_refl : reruns a a
  | reruns_step a' selected_regions date_range :
      reruns a a' →
      reruns a (page a' selected_regions date_range).2.

(** The states the application can be in over the warehouse [db]. *)
Definition reachable (db : database) (a : app) : Prop := reruns (start db) a.

(** ** Vocabulary of the properties *)

(** A table is ordered by [R] when every earlier row is related to every
    later one. *)
Definition ordered {A} (R : relation A) (df : list A) : Prop :=
  ∀ i j x y, (i < j)%nat → df !! i = Some x → df !! j = Some y → R x y.

(** The sum of a nullable numeric column, NULLs skipped. *)
Definition series_sum (col : list (option Z)) : Z := total (default 0 <$> col).

(** A filter selection the pipeline is meant for. *)
Definition valid_selection (regions : list string) (start_date end_date : date)
  : Prop :=
  regions ≠ [] ∧ date_le start_date end_date.

(** The bundles the body can produce for a pair of dates. *)
Definition computed (db : database) (start_date end_date : date)
  (data : bundle) : Prop :=
  ∃ regions,
    regions ≠ []
    ∧ data = load_filtered_data_uncached db regions start_date end_date.

(** [a] is strictly before [b]. *)
Definition date_lt (a b : date) : Prop := date_leb b a = false.

(** The cache holds, under each pair of dates, a bundle the body produced
    for those dates from this warehouse. *)
Definition cache_sound (db : database) (a : app) : Prop :=
  session a = db
  ∧ ∀ start_date end_date data,
      cache a !! (start_date, end_date) = Some data →
      computed db start_date end_date data.

(** Descending by revenue, with and without ties. *)
Definition revenue_ge (x y : ByNation.row) : Prop :=
  ∃ vx vy,
    ByNation.REVENUE x = Some vx ∧ ByNation.REVENUE y = Some vy ∧ vy ≤ vx.

Definition revenue_gt (x y : ByNation.row) : Prop :=
  ∃ vx vy,
    ByNation.REVENUE x = Some vx ∧ ByNation.REVENUE y = Some vy ∧ vy < vx.

(** ** What reaches the page

    A bundle holds its numbers as the warehouse computes them, in exact
    fixed-point arithmetic.  [to_pandas()] hands a fixed-point number with
    decimals over as the binary64 float nearest to it; NULL stays NULL and a
    count stays an integer.  The rounding is a parameter: it is some
    function of the exact number, and sums of rounded numbers need not be
    the rounded sums. *)
Section to_pandas.
Context {float64 : Type} (nearest_float : Z → float64).

Definition returned_number (v : option Z) : option float64 :=
  nearest_float <$> v.
End to_pandas.

(** ** A small warehouse to run the page on *)

Definition tiny_warehouse : database :=
  {| ORDERS :=
       [ {| O_ORDERKEY := 1; O_CUSTKEY := 10; O_ORDERDATE := Date 1995 3 14;
            O_TOTALPRICE := 10000; O_ORDERPRIORITY := "2-HIGH" |};
         {| O_ORDERKEY := 2; O_CUSTKEY := 11; O_ORDERDATE := Date 1995 3 20;
            O_TOTALPRICE := 10000; O_ORDERPRIORITY := "1-URGENT" |};
         {| O_ORDERKEY := 3; O_CUSTKEY := 10; O_ORDERDATE := Date 1995 4 2;
            O_TOTALPRICE := 2500; O_ORDERPRIORITY := "5-LOW" |};
         {| O_ORDERKEY := 4; O_CUSTKEY := 12; O_ORDERDATE := Date 1996 1 9;
            O_TOTALPRICE := 700; O_ORDERPRIORITY := "1-URGENT" |} ];
     CUSTOMER :=
       [ {| C_CUSTKEY := 10; C_NATIONKEY := 100; C_MKTSEGMENT := "BUILDING" |};
         {| C_CUSTKEY := 11; C_NATIONKEY := 101; C_MKTSEGMENT := "MACHINERY" |};
         {| C_CUSTKEY := 12; C_NATIONKEY := 102; C_MKTSEGMENT := "BUILDING" |} ];
     NATION :=
       [ {| N_NATIONKEY := 100; N_NAME := "JAPAN"; N_REGIONKEY := 2 |};
         {| N_NATIONKEY := 101; N_NAME := "FRANCE"; N_REGIONKEY := 3 |};
         {| N_NATIONKEY := 102; N_NAME := "CHINA"; N_REGIONKEY := 2 |} ];
     REGION :=
       [ {| R_REGIONKEY := 2; R_NAME := "ASIA" |};
         {| R_REGIONKEY := 3; R_NAME := "EUROPE" |} ];
     LINEITEM := [] |}.

Definition min_date : date := Date 1992 1 1.
Definition max_date : date := Date 1998 12 31.

(** The state after a first run with every region and the whole period. *)
Definition after_first_run : app :=
  (page (start tiny_warehouse) ["ASIA"; "EUROPE"] [min_date; max_date]).2.

(** ** The parameter resolver

    [get_regions] and [get_date_range] carry [@st.cache_data] too; they take
    no argument, so each has a single cache entry, filled by its first
    call. *)

Definition date_min (a b : date) : date := if date_leb a b then a else b.
Definition date_max (a b : date) : date := if date_leb a b then b else a.

(** [F.min] and [F.max] of a date column: NULL over no rows. *)
Definition F_min (vals : list date) : option date :=
  match vals with
  | [] => None
  | v :: vals' => Some (foldr date_min v vals')
  end.

Definition F_max (vals : list date) : option date :=
  match vals with
  | [] => None
  | v :: vals' => Some (foldr date_max v vals')
  end.

Definition get_regions_uncached (db : database) : list string :=
  R_NAME <$> REGION db.

Definition get_date_range_uncached (db : database)
  : option date * option date :=
  (F_min (O_ORDERDATE <$> ORDERS db), F_max (O_ORDERDATE <$> ORDERS db)).

Record resolver := {
  regions_entry : option (list string);
  date_range_entry : option (option date * option date)
}.

Definition get_regions (db : database) (m : resolver)
  : list string * resolver :=
  match regions_entry m with
  | Some regions => (regions, m)
  | None =>
      let regions := get_regions_uncached db in
      (regions,
       {| regions_entry := Some regions;
          date_range_entry := date_range_entry m |})
  end.

Definition get_date_range (db : database) (m : resolver)
  : (option date * option date) * resolver :=
  match date_range_entry m with
  | Some range => (range, m)
  | None =>
      let range := get_date_range_uncached db in
      (range,
       {| regions_entry := regions_entry m;
          date_range_entry := Some range |})
  end.

Definition fresh_resolver : resolver :=
  {| regions_entry := None; date_range_entry := None |}.

(** ** Vocabulary of the further properties *)

(** Every order with its customer, nation and region: the join chain of
    [base_df] without its two filters. *)
Definition resolved_orders (db : database) : list joined_row :=
  join
    (join
       (join (ORDERS db) (CUSTOMER db)
          (λ o c, bool_decide (O_CUSTKEY o = C_CUSTKEY c)))
       (NATION db)
       (λ oc n, bool_decide (C_NATIONKEY oc.2 = N_NATIONKEY n)))
    (REGION db)
    (λ ocn r, bool_decide (N_REGIONKEY ocn.2 = R_REGIONKEY r)).

(** What the two filters of [base_df] ask of a joined row. *)
Definition in_selection (regions : list string) (start_date end_date : date)
  (j : joined_row) : Prop :=
  (date_le start_date (O_ORDERDATE (ord j))
   ∧ date_le (O_ORDERDATE (ord j)) end_date)
  ∧ R_NAME (reg j) ∈ regions.

(** The rows of a table that fall into one group. *)
Definition rows_with {A K} `{EqDecision K} (key : A → K) (k : K)
  (df : list A) : list A :=
  filter (λ r, key r = k) df.

Definition nation_key (j : joined_row) : string * string :=
  (N_NAME (nat_ j), R_NAME (reg j)).

Definition order_month (j : joined_row) : date :=
  date_trunc_month (O_ORDERDATE (ord j)).

(** * Properties *)

(** ** The row orders are total preorders *)

Lemma date_le_spec a b :
  date_le a b ↔
  year a < year b
  ∨ (year a = year b
     ∧ (month a < month b ∨ (month a = month b ∧ day a ≤ day b))).
Proof.
  unfold date_le, date_leb.
  rewrite orb_true_iff, andb_true_iff, orb_true_iff, andb_true_iff.
  rewrite !Z.ltb_lt, !Z.eqb_eq, Z.leb_le. tauto.
Qed.

#[global] Instance date_le_refl : Reflexive date_le.
Proof. intros a. apply date_le_spec. lia. Qed.

#[global] Instance date_le_trans : Transitive date_le.
Proof. intros a b c. rewrite !date_le_spec. lia. Qed.

#[global] Instance date_le_total : Total date_le.
Proof. intros a b. rewrite !date_le_spec. lia. Qed.

#[global] Instance null_largest_le_trans : Transitive null_largest_le.
Proof. intros [x|] [y|] [z|]; simpl; try done. lia. Qed.

#[global] Instance null_largest_le_total : Total null_largest_le.
Proof. intros [x|] [y|]; simpl; try tauto. lia. Qed.

#[global] Instance by_year_month_trans : Transitive by_year_month.
Proof. intros a b c. unfold by_year_month. apply date_le_trans. Qed.

#[global] Instance by_year_month_total : Total by_year_month.
Proof. intros a b. unfold by_year_month. apply date_le_total. Qed.

#[global] Instance by_priority_label_trans : Transitive by_priority_label.
Proof.
  intros a b c. unfold by_priority_label. apply (@transitivity _ String.le _).
Qed.

#[global] Instance by_priority_label_total : Total by_priority_label.
Proof. intros a b. unfold by_priority_label. apply String.le_total. Qed.

#[global] Instance by_revenue_desc_trans : Transitive by_revenue_desc.
Proof.
  intros a b c. unfold by_revenue_desc. intros ??.
  by apply (null_largest_le_trans _ (ByNation.REVENUE b)).
Qed.

#[global] Instance by_revenue_desc_total : Total by_revenue_desc.
Proof. intros a b. unfold by_revenue_desc. apply null_largest_le_total. Qed.

(** ** Sorted tables, read by position *)

Section ordered.
Context {A : Type} (R : relation A).

Lemma StronglySorted_ordered df : StronglySorted R df → ordered R df.
Proof.
  induction 1 as [|x l _ IH Hall]; intros i j a b Hij Hi Hj.
  - by rewrite lookup_nil in Hi.
  - destruct j as [|j]; [lia|]. destruct i as [|i]; simplify_eq/=.
    + rewrite Forall_forall in Hall. apply Hall.
      by eapply list_elem_of_lookup_2.
    + apply (IH i j); [lia|done..].
Qed.

Lemma ordered_take n df : ordered R df → ordered R (take n df).
Proof.
  intros Hdf i j x y Hij Hi Hj.
  apply lookup_take_Some in Hi as [Hi _].
  apply lookup_take_Some in Hj as [Hj _]. eauto.
Qed.

Lemma order_by_ordered `{∀ x y, Decision (R x y)}
  `{!Transitive R, !Total R} df : ordered R (order_by R df).
Proof. apply StronglySorted_ordered, StronglySorted_merge_sort; apply _. Qed.

Lemma elem_of_order_by `{∀ x y, Decision (R x y)} df x :
  x ∈ order_by R df ↔ x ∈ df.
Proof. unfold order_by. by rewrite merge_sort_Permutation. Qed.

End ordered.

(** ** Grouping partitions a table *)

Lemma filter_all {A} (P : A → Prop) `{∀ x, Decision (P x)} (l : list A) :
  (∀ x, x ∈ l → P x) → filter P l = l.
Proof.
  induction l as [|x l IH]; intros HP; [done|].
  rewrite filter_cons_True by (apply HP; left).
  f_equal. apply IH. intros y Hy. apply HP. by right.
Qed.

Section group_by_facts.
Context {A K : Type} `{EqDecision K} (key : A → K).

Lemma group_by_keys df : (group_by key df).*1 = remove_dups (key <$> df).
Proof.
  unfold group_by. rewrite <- list_fmap_compose.
  induction (remove_dups (key <$> df)) as [|k ks IH]; [done|].
  rewrite fmap_cons. f_equal. apply IH.
Qed.

Lemma elem_of_group_by df k g :
  (k, g) ∈ group_by key df ↔
  (∃ r, r ∈ df ∧ key r = k) ∧ g = filter (λ r, key r = k) df.
Proof.
  unfold group_by. rewrite list_elem_of_fmap. split.
  - intros (k' & [= -> ->] & Hk).
    apply elem_of_remove_dups, list_elem_of_fmap in Hk as (r & -> & Hr).
    eauto.
  - intros [(r & Hr & <-) ->]. exists (key r). split; [done|].
    apply elem_of_remove_dups, list_elem_of_fmap. eauto.
Qed.

Lemma group_by_nonempty df k g : (k, g) ∈ group_by key df → g ≠ [].
Proof.
  intros [(r & Hr & Hk) ->]%elem_of_group_by Hnil.
  assert (r ∈ filter (λ r, key r = k) df) as Hin
    by by apply list_elem_of_filter.
  rewrite Hnil in Hin. by apply not_elem_of_nil in Hin.
Qed.

Lemma group_by_eq_nil df : group_by key df = [] → df = [].
Proof.
  destruct df as [|r df]; [done|]. intros Hnil.
  assert ((key r, filter (λ r', key r' = key r) (r :: df))
          ∈ group_by key (r :: df)) as Hin.
  { apply elem_of_group_by. split; [|done]. exists r. split; [left|done]. }
  rewrite Hnil in Hin. by apply not_elem_of_nil in Hin.
Qed.

(** A measure that adds up over rows adds up over the groups. *)
Section measure.
Context {M : Type} (op : M → M → M) (e : M) (w : A → M) (μ : list A → M).
Hypothesis op_assoc : ∀ x y z, op x (op y z) = op (op x y) z.
Hypothesis op_comm : ∀ x y, op x y = op y x.
Hypothesis op_left_id : ∀ x, op e x = x.
Hypothesis μ_nil : μ [] = e.
Hypothesis μ_cons : ∀ r l, μ (r :: l) = op (w r) (μ l).

Lemma measure_split k ks df :
  k ∉ ks →
  op (μ (filter (λ r, key r = k) df)) (μ (filter (λ r, key r ∈ ks) df))
  = μ (filter (λ r, key r ∈ k :: ks) df).
Proof.
  intros Hk. induction df as [|r df IH].
  - by rewrite !filter_nil, μ_nil, op_left_id.
  - rewrite !filter_cons.
    destruct (decide (key r = k)) as [->|Hne].
    + rewrite decide_False by done.
      rewrite decide_True by left.
      by rewrite !μ_cons, <- IH, op_assoc.
    + destruct (decide (key r ∈ ks)) as [Hin|Hin].
      * rewrite decide_True by by right.
        rewrite !μ_cons, <- IH, !op_assoc. f_equal. apply op_comm.
      * rewrite decide_False; [done|].
        intros [?|?]%elem_of_cons; done.
Qed.

Lemma measure_keys ks df :
  NoDup ks →
  foldr op e ((λ k, μ (filter (λ r, key r = k) df)) <$> ks)
  = μ (filter (λ r, key r ∈ ks) df).
Proof.
  induction 1 as [|k ks Hk _ IH]; csimpl.
  - rewrite <- μ_nil. f_equal. induction df as [|r df IHdf]; [done|].
    rewrite filter_cons, decide_False; [done|]. apply not_elem_of_nil.
  - rewrite IH. by apply measure_split.
Qed.

Lemma measure_group_by df :
  foldr op e ((λ g, μ g.2) <$> group_by key df) = μ df.
Proof.
  unfold group_by. rewrite <- list_fmap_compose.
  change ((λ g : K * list A, μ g.2) ∘ _)
    with (λ k, μ (filter (λ r, key r = k) df)).
  rewrite measure_keys by apply NoDup_remove_dups. f_equal.
  apply filter_all. intros r Hr.
  apply elem_of_remove_dups, list_elem_of_fmap. eauto.
Qed.
End measure.
End group_by_facts.

(** ** The aggregate functions *)

Lemma F_sum_total vals : default 0 (F_sum vals) = total vals.
Proof. by destruct vals. Qed.

Lemma F_sum_nonempty vals : vals ≠ [] → F_sum vals = Some (total vals).
Proof. by destruct vals. Qed.

Lemma sum_list_foldr (l : list nat) : sum_list l = foldr Nat.add 0%nat l.
Proof. induction l as [|n l IH]; [done|]. simpl. by rewrite IH. Qed.

Lemma agg_eq_nil {A K R} (row : K → list A → R) grouped :
  agg row grouped = [] ↔ grouped = [].
Proof. unfold agg. split; [apply fmap_nil_inv|by intros ->]. Qed.

Lemma elem_of_agg {A K R} (row : K → list A → R) grouped x :
  x ∈ agg row grouped ↔ ∃ k g, (k, g) ∈ grouped ∧ x = row k g.
Proof.
  unfold agg. rewrite list_elem_of_fmap. split.
  - intros ([k g] & -> & Hin). eauto.
  - intros (k & g & Hin & ->). by exists (k, g).
Qed.

(** ** Revenue by region *)

Section region_revenue_facts.
Variable base : list joined_row.

Lemma region_revenue_orders :
  sum_list (ByRegion.ORDERS <$> region_revenue_of base) = length base.
Proof.
  unfold region_revenue_of, agg.
  rewrite <- list_fmap_compose, sum_list_foldr.
  rewrite <- (length_fmap (O_ORDERKEY ∘ ord) base).
  apply (measure_group_by (λ j, R_NAME (reg j)) Nat.add 0%nat (λ _, 1%nat)
           (λ g, F_count (O_ORDERKEY ∘ ord <$> g))); try done; lia.
Qed.

Lemma region_revenue_sum :
  series_sum (ByRegion.REVENUE <$> region_revenue_of base)
  = total (price <$> base).
Proof.
  unfold series_sum, region_revenue_of, agg.
  rewrite <- !list_fmap_compose.
  rewrite <- (F_sum_total (price <$> base)).
  apply (measure_group_by (λ j, R_NAME (reg j)) Z.add 0 price
           (λ g, default 0 (F_sum (price <$> g)))); try (intros; lia).
  - done.
  - intros r l. by rewrite fmap_cons, !F_sum_total.
Qed.

Lemma region_revenue_not_null r :
  r ∈ region_revenue_of base → is_Some (ByRegion.REVENUE r).
Proof.
  unfold region_revenue_of. intros (k & g & Hg & ->)%elem_of_agg. simpl.
  rewrite F_sum_nonempty; [done|].
  intros ?%fmap_nil_inv. by eapply group_by_nonempty.
Qed.

Lemma region_revenue_eq_nil : region_revenue_of base = [] ↔ base = [].
Proof.
  unfold region_revenue_of. rewrite agg_eq_nil. split.
  - apply group_by_eq_nil.
  - by intros ->.
Qed.
End region_revenue_facts.

(** ** The base relation *)

Lemma filter_none {A} (P : A → Prop) `{∀ x, Decision (P x)} (l : list A) :
  (∀ x, x ∈ l → ¬ P x) → filter P l = [].
Proof.
  induction l as [|x l IH]; intros HP; [done|].
  rewrite filter_cons_False by (apply HP; left).
  apply IH. intros y Hy. apply HP. by right.
Qed.

Lemma date_lt_not_le a b : date_lt a b → ¬ date_le b a.
Proof. unfold date_lt, date_le. congruence. Qed.

Section base_df_facts.
Variable db : database.

Lemma base_df_inverted regions start_date end_date :
  date_lt end_date start_date →
  base_df db regions start_date end_date = [].
Proof.
  intros Hlt%date_lt_not_le. unfold base_df.
  rewrite (filter_none (λ o, _ ∧ _)); [done|].
  intros o _ [H1 H2]. apply Hlt. by etrans.
Qed.

Lemma base_df_region regions start_date end_date j :
  j ∈ base_df db regions start_date end_date → R_NAME (reg j) ∈ regions.
Proof. unfold base_df. by intros [? _]%list_elem_of_filter. Qed.

Lemma base_df_order_date regions start_date end_date j :
  j ∈ base_df db regions start_date end_date →
  ord j ∈ ORDERS db
  ∧ date_le start_date (O_ORDERDATE (ord j))
  ∧ date_le (O_ORDERDATE (ord j)) end_date.
Proof.
  unfold base_df, join. intros [_ Hj]%list_elem_of_filter.
  apply list_elem_of_bind in Hj as (ocn & Hj & Hocn).
  apply list_elem_of_bind in Hj as (r & Hj & _).
  destruct (bool_decide _); [|by apply not_elem_of_nil in Hj].
  apply list_elem_of_singleton in Hj as ->.
  apply list_elem_of_bind in Hocn as (oc & Hocn & Hoc).
  apply list_elem_of_bind in Hocn as (n & Hocn & _).
  destruct (bool_decide _); [|by apply not_elem_of_nil in Hocn].
  apply list_elem_of_singleton in Hocn as ->.
  apply list_elem_of_bind in Hoc as (o & Hoc & Ho).
  apply list_elem_of_bind in Hoc as (c & Hoc & _).
  destruct (bool_decide _); [|by apply not_elem_of_nil in Hoc].
  apply list_elem_of_singleton in Hoc as ->.
  apply list_elem_of_filter in Ho as [[??] ?]. by unfold ord.
Qed.

(** Only membership in the region list is ever asked. *)
Lemma base_df_same_regions regions regions' start_date end_date :
  (∀ name, name ∈ regions ↔ name ∈ regions') →
  base_df db regions start_date end_date
  = base_df db regions' start_date end_date.
Proof. intros Hsame. unfold base_df. apply list_filter_iff. intros j. apply Hsame. Qed.

Lemma base_df_Permutation regions regions' start_date end_date :
  regions ≡ₚ regions' →
  base_df db regions start_date end_date
  = base_df db regions' start_date end_date.
Proof.
  intros Hperm. apply base_df_same_regions. intros name. by rewrite Hperm.
Qed.
End base_df_facts.

(** ** The ordered views *)

Section view_facts.
Variable base : list joined_row.

Lemma monthly_revenue_ordered :
  ordered by_year_month (monthly_revenue_of base).
Proof. unfold monthly_revenue_of. apply order_by_ordered; apply _. Qed.

Lemma nation_revenue_length : (length (nation_revenue_of base) ≤ 10)%nat.
Proof. unfold nation_revenue_of, limit. rewrite length_take. lia. Qed.

Lemma nation_revenue_ordered :
  ordered by_revenue_desc (nation_revenue_of base).
Proof.
  unfold nation_revenue_of, limit.
  apply ordered_take, order_by_ordered; apply _.
Qed.

Lemma elem_of_nation_revenue x :
  x ∈ nation_revenue_of base →
  ∃ j, j ∈ base
       ∧ ByNation.N_NAME x = N_NAME (nat_ j)
       ∧ ByNation.R_NAME x = R_NAME (reg j)
       ∧ is_Some (ByNation.REVENUE x).
Proof.
  unfold nation_revenue_of, limit. intros Hx%subseteq_take.
  apply elem_of_order_by, elem_of_agg in Hx as (k & g & Hg & ->).
  pose proof (group_by_nonempty _ _ _ _ Hg) as Hne.
  apply elem_of_group_by in Hg as [(j & Hj & <-) ->].
  exists j. simpl. split_and!; try done.
  rewrite F_sum_nonempty; [done|]. by intros ?%fmap_nil_inv.
Qed.

Lemma elem_of_region_revenue x :
  x ∈ region_revenue_of base →
  ∃ j, j ∈ base ∧ ByRegion.R_NAME x = R_NAME (reg j).
Proof.
  unfold region_revenue_of. intros (k & g & Hg & ->)%elem_of_agg.
  apply elem_of_group_by in Hg as [(j & Hj & <-) ->]. eauto.
Qed.

Lemma priority_analysis_ordered :
  ordered by_priority_label (priority_analysis_of base).
Proof. unfold priority_analysis_of. apply order_by_ordered; apply _. Qed.

Lemma priority_analysis_labels :
  ByPriority.O_ORDERPRIORITY <$> priority_analysis_of base
  ≡ₚ remove_dups (O_ORDERPRIORITY ∘ ord <$> base).
Proof.
  unfold priority_analysis_of, order_by. rewrite merge_sort_Permutation.
  unfold agg. rewrite <- list_fmap_compose.
  rewrite <- (group_by_keys (λ j, O_ORDERPRIORITY (ord j)) base).
  done.
Qed.

Lemma priority_analysis_NoDup :
  NoDup (ByPriority.O_ORDERPRIORITY <$> priority_analysis_of base).
Proof. rewrite priority_analysis_labels. apply NoDup_remove_dups. Qed.

Lemma priority_analysis_label p :
  p ∈ ByPriority.O_ORDERPRIORITY <$> priority_analysis_of base ↔
  ∃ j, j ∈ base ∧ O_ORDERPRIORITY (ord j) = p.
Proof.
  rewrite priority_analysis_labels, elem_of_remove_dups, list_elem_of_fmap.
  split.
  - intros (j & -> & Hj). eauto.
  - intros (j & Hj & <-). eauto.
Qed.

Lemma elem_of_priority_analysis x :
  x ∈ priority_analysis_of base →
  let g := filter (λ j, O_ORDERPRIORITY (ord j)
                        = ByPriority.O_ORDERPRIORITY x) base in
  g ≠ []
  ∧ ByPriority.ORDERS x = length g
  ∧ ByPriority.REVENUE x = Some (total (price <$> g)).
Proof.
  unfold priority_analysis_of.
  intros (k & g & Hg & ->)%elem_of_order_by%elem_of_agg.
  pose proof (group_by_nonempty _ _ _ _ Hg) as Hne.
  apply elem_of_group_by in Hg as [_ ->]. simpl. split_and!; [done|..].
  - unfold F_count. by rewrite length_fmap.
  - rewrite F_sum_nonempty; [done|]. by intros ?%fmap_nil_inv.
Qed.
End view_facts.

(** ** What the cache can hold *)

Lemma load_filtered_data_sound db a regions start_date end_date :
  cache_sound db a → regions ≠ [] →
  computed db start_date end_date
    (load_filtered_data a regions start_date end_date).1
  ∧ cache_sound db (load_filtered_data a regions start_date end_date).2.
Proof.
  intros [Hdb Hcache] Hne. unfold load_filtered_data, cache_key.
  destruct (cache a !! (start_date, end_date)) as [data|] eqn:Hlook; simpl.
  - split; [by eapply Hcache|done].
  - subst db. split; [by exists regions|]. split; [done|]. simpl.
    intros s e data. rewrite lookup_insert.
    case_decide as Hkey; [|by apply Hcache].
    intros [= <-]. simplify_eq. by exists regions.
Qed.

Lemma page_sound db a selected_regions date_range :
  cache_sound db a → cache_sound db (page a selected_regions date_range).2.
Proof.
  intros Hsound. unfold page.
  destruct (bool_decide (length date_range = 2%nat)); simpl; [|done].
  case_bool_decide as Hsel; simpl; [done|].
  destruct (load_filtered_data _ _ _ _) as [data a'] eqn:Hload.
  change a' with (data, a').2. rewrite <- Hload.
  by apply load_filtered_data_sound.
Qed.

Lemma reruns_sound db a a' : cache_sound db a → reruns a a' → cache_sound db a'.
Proof.
  intros Hsound. induction 1 as [|a' sel dr _ IH]; [done|].
  by apply page_sound.
Qed.

Lemma reachable_sound db a : reachable db a → cache_sound db a.
Proof.
  apply reruns_sound. split; [done|].
  intros s e data. simpl. by rewrite lookup_empty.
Qed.

(** An entry, once stored, is what every later call for its key returns. *)
Lemma load_filtered_data_keeps a regions start_date end_date key data :
  cache a !! key = Some data →
  cache (load_filtered_data a regions start_date end_date).2 !! key
  = Some data.
Proof.
  intros Hkey. unfold load_filtered_data.
  destruct (cache a !! cache_key regions start_date end_date) as [data'|]
    eqn:Hlook; simpl; [done|].
  rewrite lookup_insert_ne; [done|]. congruence.
Qed.

Lemma page_keeps a selected_regions date_range key data :
  cache a !! key = Some data →
  cache (page a selected_regions date_range).2 !! key = Some data.
Proof.
  intros Hkey. unfold page.
  destruct (_ && _); [|done].
  destruct (load_filtered_data _ _ _ _) as [loaded a'] eqn:Hload.
  change a' with (loaded, a').2. rewrite <- Hload.
  by apply load_filtered_data_keeps.
Qed.

Lemma reruns_keeps a a' key data :
  reruns a a' → cache a !! key = Some data → cache a' !! key = Some data.
Proof.
  induction 1 as [|a' sel dr _ IH]; [done|].
  intros Hkey. by apply page_keeps, IH.
Qed.

Lemma load_filtered_data_hit a regions start_date end_date data :
  cache a !! cache_key regions start_date end_date = Some data →
  load_filtered_data a regions start_date end_date = (data, a).
Proof. intros Hhit. unfold load_filtered_data. by rewrite Hhit. Qed.

Lemma load_filtered_data_stores a regions start_date end_date :
  cache (load_filtered_data a regions start_date end_date).2
    !! cache_key regions start_date end_date
  = Some (load_filtered_data a regions start_date end_date).1.
Proof.
  unfold load_filtered_data.
  destruct (cache a !! cache_key regions start_date end_date) as [data|]
    eqn:Hlook; simpl; [done|].
  apply lookup_insert_eq.
Qed.

Lemma load_filtered_data_computed db a regions start_date end_date :
  reachable db a → regions ≠ [] →
  computed db start_date end_date
    (load_filtered_data a regions start_date end_date).1.
Proof.
  intros Hreach%reachable_sound Hne.
  by destruct (load_filtered_data_sound db a regions start_date end_date).
Qed.

Lemma load_filtered_data_miss a regions start_date end_date :
  cache a !! cache_key regions start_date end_date = None →
  (load_filtered_data a regions start_date end_date).1
  = load_filtered_data_uncached (session a) regions start_date end_date.
Proof. intros Hmiss. unfold load_filtered_data. by rewrite Hmiss. Qed.

Lemma after_first_run_reachable : reachable tiny_warehouse after_first_run.
Proof. apply reruns_step, reruns_refl. Qed.

(** * The dashboard against its specification *)

(** ** Order count and revenue by region against the summary *)

(** C1. For every valid filter selection, [total_orders] equals the sum of
    the ORDERS column over all rows of [region_revenue] in the same bundle. *)
Theorem total_orders_is_sum_of_region_orders db a regions start_date end_date :
  reachable db a → valid_selection regions start_date end_date →
  let data := (load_filtered_data a regions start_date end_date).1 in
  total_orders data = sum_list (ByRegion.ORDERS <$> region_revenue data).
Proof.
  intros Hreach [Hne _] data.
  destruct (load_filtered_data_computed db a regions start_date end_date
              Hreach Hne) as (regions0 & _ & Hdata).
  subst data. rewrite Hdata. simpl. symmetry. apply region_revenue_orders.
Qed.

Lemma total_orders_is_sum_of_region_orders_witness :
  reachable tiny_warehouse after_first_run
  ∧ valid_selection ["ASIA"] min_date max_date
  ∧ let data := (load_filtered_data after_first_run ["ASIA"]
                   min_date max_date).1 in
    total_orders data = sum_list (ByRegion.ORDERS <$> region_revenue data).
Proof.
  assert (reachable tiny_warehouse after_first_run) as Hreach
    by exact (reruns_step _ _ _ _ (reruns_refl _)).
  assert (valid_selection ["ASIA"] min_date max_date) as Hvalid
    by (split; [discriminate|reflexivity]).
  split; [exact Hreach|]. split; [exact Hvalid|].
  exact (total_orders_is_sum_of_region_orders _ _ _ _ _ Hreach Hvalid).
Defined.

(** C2, as the code has it.  For every valid filter selection, when the
    [region_revenue] table of the returned bundle has no rows,
    [total_revenue] is NULL; when it has rows, no REVENUE entry is NULL and
    the exact revenue sums of the regions add up to the exact total, so that
    [total_revenue] reaches the page as the float nearest to the sum of the
    exact REVENUE values. *)
Theorem total_revenue_is_sum_of_region_revenue
  {float64 : Type} (nearest_float : Z → float64)
  db a regions start_date end_date :
  reachable db a → valid_selection regions start_date end_date →
  let data := (load_filtered_data a regions start_date end_date).1 in
  let exact := ByRegion.REVENUE <$> region_revenue data in
  match region_revenue data with
  | [] => returned_number nearest_float (total_revenue data) = None
  | _ :: _ =>
      Forall is_Some exact
      ∧ total_revenue data = Some (series_sum exact)
      ∧ returned_number nearest_float (total_revenue data)
        = Some (nearest_float (series_sum exact))
  end.
Proof.
  intros Hreach [Hne _] data exact. subst exact.
  destruct (load_filtered_data_computed db a regions start_date end_date
              Hreach Hne) as (regions0 & _ & Hdata).
  subst data. rewrite Hdata. simpl.
  set (base := base_df db regions0 start_date end_date).
  destruct (region_revenue_of base) as [|r rows] eqn:Hrows.
  - apply region_revenue_eq_nil in Hrows. by rewrite Hrows.
  - rewrite <- Hrows, region_revenue_sum.
    assert (F_sum (price <$> base) = Some (total (price <$> base))) as ->.
    { apply F_sum_nonempty. intros Hnil%fmap_nil_inv.
      apply region_revenue_eq_nil in Hnil. congruence. }
    split_and!; [|done..].
    apply Forall_fmap, Forall_forall. apply region_revenue_not_null.
Qed.

Lemma total_revenue_is_sum_of_region_revenue_witness :
  reachable tiny_warehouse after_first_run
  ∧ valid_selection ["ASIA"] min_date max_date
  ∧ let data := (load_filtered_data after_first_run ["ASIA"]
                   min_date max_date).1 in
    let exact := ByRegion.REVENUE <$> region_revenue data in
    match region_revenue data with
    | [] => returned_number (λ cents, Qmake cents 100) (total_revenue data)
            = None
    | _ :: _ =>
        Forall is_Some exact
        ∧ total_revenue data = Some (series_sum exact)
        ∧ returned_number (λ cents, Qmake cents 100) (total_revenue data)
          = Some (Qmake (series_sum exact) 100)
    end.
Proof.
  assert (reachable tiny_warehouse after_first_run) as Hreach
    by exact (reruns_step _ _ _ _ (reruns_refl _)).
  assert (valid_selection ["ASIA"] min_date max_date) as Hvalid
    by (split; [discriminate|reflexivity]).
  split; [exact Hreach|]. split; [exact Hvalid|].
  exact (total_revenue_is_sum_of_region_revenue (λ cents, Qmake cents 100)
           _ _ _ _ _ Hreach Hvalid).
Defined.

(** C2, as stated, fails for a valid selection that matches no order: the
    table is empty, its REVENUE column sums to 0, and [total_revenue] is
    NULL. *)
Lemma total_revenue_null_counterexample :
  reachable tiny_warehouse (start tiny_warehouse)
  ∧ valid_selection ["ASIA"] (Date 1997 1 1) (Date 1997 12 31)
  ∧ let data := (load_filtered_data (start tiny_warehouse) ["ASIA"]
                   (Date 1997 1 1) (Date 1997 12 31)).1 in
    series_sum (ByRegion.REVENUE <$> region_revenue data) = 0
    ∧ total_revenue data = None
    ∧ total_revenue data
      ≠ Some (series_sum (ByRegion.REVENUE <$> region_revenue data)).
Proof.
  split; [constructor|]. split; [by split|]. by vm_compute.
Qed.

(** ** Idempotence *)

(** C3. Calling the pipeline twice with one key gives equal bundles: the
    second call returns the first call's bundle and changes nothing, whether
    it follows at once or after any number of reruns of the page.  No call
    changes anything but the cache entry of its key (and the record of the
    read queries it issued). *)
Theorem load_filtered_data_idempotent a regions start_date end_date :
  let first := load_filtered_data a regions start_date end_date in
  (∀ a', reruns first.2 a' →
         load_filtered_data a' regions start_date end_date = (first.1, a'))
  ∧ session first.2 = session a
  ∧ (issued first.2 = issued a ∨ issued first.2 = issued a ++ pipeline_queries)
  ∧ ∀ key, key ≠ cache_key regions start_date end_date →
           cache first.2 !! key = cache a !! key.
Proof.
  intros first. split.
  { intros a' Hruns. apply load_filtered_data_hit.
    apply (reruns_keeps _ _ _ _ Hruns), load_filtered_data_stores. }
  subst first. unfold load_filtered_data.
  destruct (cache a !! cache_key regions start_date end_date) as [data|]
    eqn:Hlook; simpl.
  - split_and!; auto.
  - split_and!; auto. intros key Hkey. by rewrite lookup_insert_ne.
Qed.

Lemma load_filtered_data_idempotent_witness :
  let first := load_filtered_data (start tiny_warehouse) ["ASIA"]
                 min_date max_date in
  let later := (page first.2 ["EUROPE"] [Date 1995 1 1; Date 1995 12 31]).2 in
  reruns first.2 later
  ∧ load_filtered_data first.2 ["ASIA"] min_date max_date = (first.1, first.2)
  ∧ load_filtered_data later ["ASIA"] min_date max_date = (first.1, later).
Proof.
  intros first later.
  assert (reruns first.2 later) as Hlater
    by exact (reruns_step _ _ _ _ (reruns_refl _)).
  split; [exact Hlater|]. split.
  - exact (proj1 (load_filtered_data_idempotent (start tiny_warehouse) ["ASIA"]
                    min_date max_date) first.2 (reruns_refl _)).
  - exact (proj1 (load_filtered_data_idempotent (start tiny_warehouse) ["ASIA"]
                    min_date max_date) later Hlater).
Defined.

(** ** Top nations *)

Lemma nation_revenue_ordered_ge base :
  ordered revenue_ge (nation_revenue_of base).
Proof.
  intros i j x y Hij Hx Hy.
  pose proof (nation_revenue_ordered base i j x y Hij Hx Hy) as Hdesc.
  apply list_elem_of_lookup_2, elem_of_nation_revenue in Hx
    as (_ & _ & _ & _ & vx & Hvx).
  apply list_elem_of_lookup_2, elem_of_nation_revenue in Hy
    as (_ & _ & _ & _ & vy & Hvy).
  exists vx, vy. unfold by_revenue_desc in Hdesc.
  by rewrite Hvx, Hvy in Hdesc.
Qed.

(** C4, as the code has it.  For every valid filter selection,
    [nation_revenue] has at most 10 rows and they are sorted descending by
    REVENUE, rows of equal revenue allowed. *)
Theorem nation_revenue_top_10_descending db a regions start_date end_date :
  reachable db a → valid_selection regions start_date end_date →
  let data := (load_filtered_data a regions start_date end_date).1 in
  (length (nation_revenue data) ≤ 10)%nat
  ∧ ordered revenue_ge (nation_revenue data).
Proof.
  intros Hreach [Hne _] data.
  destruct (load_filtered_data_computed db a regions start_date end_date
              Hreach Hne) as (regions0 & _ & Hdata).
  subst data. rewrite Hdata. simpl. split.
  - apply nation_revenue_length.
  - apply nation_revenue_ordered_ge.
Qed.

Lemma nation_revenue_top_10_descending_witness :
  reachable tiny_warehouse after_first_run
  ∧ valid_selection ["ASIA"] min_date max_date
  ∧ let data := (load_filtered_data after_first_run ["ASIA"]
                   min_date max_date).1 in
    (length (nation_revenue data) ≤ 10)%nat
    ∧ ordered revenue_ge (nation_revenue data).
Proof.
  assert (reachable tiny_warehouse after_first_run) as Hreach
    by exact (reruns_step _ _ _ _ (reruns_refl _)).
  assert (valid_selection ["ASIA"] min_date max_date) as Hvalid
    by (split; [discriminate|reflexivity]).
  split; [exact Hreach|]. split; [exact Hvalid|].
  exact (nation_revenue_top_10_descending _ _ _ _ _ Hreach Hvalid).
Defined.

(** C4, as stated, fails when two nations tie: in March 1995 JAPAN and
    FRANCE both sold 10000, so the first two rows are not strictly
    descending. *)
Lemma nation_revenue_tie_counterexample :
  reachable tiny_warehouse (start tiny_warehouse)
  ∧ valid_selection ["ASIA"; "EUROPE"] (Date 1995 3 1) (Date 1995 3 31)
  ∧ let data := (load_filtered_data (start tiny_warehouse) ["ASIA"; "EUROPE"]
                   (Date 1995 3 1) (Date 1995 3 31)).1 in
    ByNation.REVENUE <$> nation_revenue data = [Some 10000; Some 10000]
    ∧ ¬ ordered revenue_gt (nation_revenue data).
Proof.
  split; [constructor|]. split; [by split|]. split; [by vm_compute|].
  intros Hsorted.
  destruct (Hsorted 0%nat 1%nat
              {| ByNation.N_NAME := "JAPAN"; ByNation.R_NAME := "ASIA";
                 ByNation.REVENUE := Some 10000 |}
              {| ByNation.N_NAME := "FRANCE"; ByNation.R_NAME := "EUROPE";
                 ByNation.REVENUE := Some 10000 |})
    as (vx & vy & Hx & Hy & Hlt); [lia|by vm_compute..|].
  simpl in Hx, Hy. simplify_eq. lia.
Qed.

(** ** Monthly revenue *)

(** C5. For every valid filter selection, the rows of [monthly_revenue]
    are in non-decreasing order of YEAR_MONTH from first to last. *)
Theorem monthly_revenue_ascending db a regions start_date end_date :
  reachable db a → valid_selection regions start_date end_date →
  let data := (load_filtered_data a regions start_date end_date).1 in
  ordered (λ x y, date_le (Monthly.YEAR_MONTH x) (Monthly.YEAR_MONTH y))
    (monthly_revenue data).
Proof.
  intros Hreach [Hne _] data.
  destruct (load_filtered_data_computed db a regions start_date end_date
              Hreach Hne) as (regions0 & _ & Hdata).
  subst data. rewrite Hdata. simpl. apply monthly_revenue_ordered.
Qed.

Lemma monthly_revenue_ascending_witness :
  reachable tiny_warehouse after_first_run
  ∧ valid_selection ["ASIA"] min_date max_date
  ∧ let data := (load_filtered_data after_first_run ["ASIA"]
                   min_date max_date).1 in
    ordered (λ x y, date_le (Monthly.YEAR_MONTH x) (Monthly.YEAR_MONTH y))
      (monthly_revenue data).
Proof.
  assert (reachable tiny_warehouse after_first_run) as Hreach
    by exact (reruns_step _ _ _ _ (reruns_refl _)).
  assert (valid_selection ["ASIA"] min_date max_date) as Hvalid
    by (split; [discriminate|reflexivity]).
  split; [exact Hreach|]. split; [exact Hvalid|].
  exact (monthly_revenue_ascending _ _ _ _ _ Hreach Hvalid).
Defined.

(** ** Inverted date range *)

Lemma load_filtered_data_uncached_empty db regions start_date end_date :
  base_df db regions start_date end_date = [] →
  load_filtered_data_uncached db regions start_date end_date
  = {| total_revenue := None; total_orders := 0; avg_order_value := None;
       monthly_revenue := []; region_revenue := []; segment_analysis := [];
       priority_analysis := []; nation_revenue := [] |}.
Proof. intros Hbase. unfold load_filtered_data_uncached. by rewrite Hbase. Qed.

(** C6.  For every selection with a non-empty region set and an end date
    strictly before the start date, the base relation is empty and the
    pipeline returns a bundle, all of whose eight aggregates are empty: the
    order count is 0 rows, [total_revenue] and [avg_order_value] are NULL,
    and the five tables have no rows. *)
Theorem inverted_range_gives_empty_bundle db a regions start_date end_date :
  reachable db a → regions ≠ [] → date_lt end_date start_date →
  base_df db regions start_date end_date = []
  ∧ ∃ data a',
      load_filtered_data a regions start_date end_date = (data, a')
      ∧ total_orders data = 0%nat
      ∧ total_revenue data = None
      ∧ avg_order_value data = None
      ∧ monthly_revenue data = []
      ∧ region_revenue data = []
      ∧ segment_analysis data = []
      ∧ priority_analysis data = []
      ∧ nation_revenue data = [].
Proof.
  intros Hreach Hne Hlt. split; [by apply base_df_inverted|].
  destruct (load_filtered_data_computed db a regions start_date end_date
              Hreach Hne) as (regions0 & _ & Hdata).
  destruct (load_filtered_data a regions start_date end_date) as [data a'].
  exists data, a'. split; [done|]. simpl in Hdata. rewrite Hdata.
  rewrite load_filtered_data_uncached_empty by by apply base_df_inverted.
  simpl. by split_and!.
Qed.

Lemma inverted_range_gives_empty_bundle_witness :
  reachable tiny_warehouse after_first_run
  ∧ ["ASIA"] ≠ []
  ∧ date_lt min_date max_date
  ∧ base_df tiny_warehouse ["ASIA"] max_date min_date = []
  ∧ ∃ data a',
      load_filtered_data after_first_run ["ASIA"] max_date min_date
      = (data, a')
      ∧ total_orders data = 0%nat
      ∧ total_revenue data = None
      ∧ avg_order_value data = None
      ∧ monthly_revenue data = []
      ∧ region_revenue data = []
      ∧ segment_analysis data = []
      ∧ priority_analysis data = []
      ∧ nation_revenue data = [].
Proof.
  assert (reachable tiny_warehouse after_first_run) as Hreach
    by exact (reruns_step _ _ _ _ (reruns_refl _)).
  assert (["ASIA"] ≠ []) as Hne by discriminate.
  assert (date_lt min_date max_date) as Hlt by reflexivity.
  split; [exact Hreach|]. split; [exact Hne|]. split; [exact Hlt|].
  exact (inverted_range_gives_empty_bundle _ _ _ _ _ Hreach Hne Hlt).
Defined.

(** ** The guard of the page *)

(** C7. When the region selection is empty or the date range does not hold
    both endpoints, the page renders the prompt alone and leaves the state
    as it was: no query is issued and the cache is not consulted.  In every
    other case it renders the dashboard of the loaded bundle; the page has
    no third case. *)
Theorem page_guard a selected_regions date_range :
  (selected_regions = [] ∨ length date_range ≠ 2%nat →
   page a selected_regions date_range = ([st_warning prompt], a))
  ∧ (selected_regions ≠ [] ∧ length date_range = 2%nat →
     let loaded :=
       load_filtered_data a selected_regions
         (date_range !!! 0%nat) (date_range !!! 1%nat) in
     page a selected_regions date_range = (dashboard loaded.1, loaded.2)).
Proof.
  unfold page. split.
  - intros [->|Hlen].
    + by rewrite andb_false_r.
    + by rewrite bool_decide_false.
  - intros [Hsel Hlen].
    rewrite bool_decide_true, (bool_decide_false (selected_regions = []))
      by done.
    simpl. by destruct (load_filtered_data _ _ _ _).
Qed.

Lemma page_guard_witness :
  issued (page after_first_run [] [min_date; max_date]).2
  = issued after_first_run
  ∧ page after_first_run ["ASIA"] [min_date]
    = ([st_warning prompt], after_first_run).
Proof.
  split.
  - rewrite (proj1 (page_guard after_first_run [] [min_date; max_date]));
      [reflexivity|].
    left. reflexivity.
  - apply (proj1 (page_guard after_first_run ["ASIA"] [min_date])).
    right. simpl. lia.
Defined.

(** ** Priority analysis *)

(** The label order is the order of the characters, whatever number a label
    starts with. *)
Example lexical_order_is_not_numeric :
  String.le "10-ROUTINE" "2-HIGH" ∧ ¬ String.le "2-HIGH" "10-ROUTINE".
Proof. split; by vm_compute. Qed.

(** C8 at the failing input.  After a first run with ASIA and EUROPE, a
    call for EUROPE alone over the same dates is served the cached table.
    EUROPE has one order, of label 1-URGENT; the table served counts two
    orders under that label and has rows for two labels EUROPE has no order
    of.  Computed for EUROPE, the table is the single row of that order. *)
Theorem priority_analysis_stale_through_cache :
  reachable tiny_warehouse after_first_run
  ∧ valid_selection ["EUROPE"] min_date max_date
  ∧ let data := (load_filtered_data after_first_run ["EUROPE"]
                   min_date max_date).1 in
    O_ORDERPRIORITY ∘ ord
      <$> base_df tiny_warehouse ["EUROPE"] min_date max_date
    = ["1-URGENT"]
    ∧ priority_analysis data
      = [ {| ByPriority.O_ORDERPRIORITY := "1-URGENT";
             ByPriority.ORDERS := 2; ByPriority.REVENUE := Some 10700 |};
          {| ByPriority.O_ORDERPRIORITY := "2-HIGH";
             ByPriority.ORDERS := 1; ByPriority.REVENUE := Some 10000 |};
          {| ByPriority.O_ORDERPRIORITY := "5-LOW";
             ByPriority.ORDERS := 1; ByPriority.REVENUE := Some 2500 |} ]
    ∧ priority_analysis
        (load_filtered_data_uncached tiny_warehouse ["EUROPE"]
           min_date max_date)
      = [ {| ByPriority.O_ORDERPRIORITY := "1-URGENT";
             ByPriority.ORDERS := 1; ByPriority.REVENUE := Some 10000 |} ].
Proof.
  split; [apply after_first_run_reachable|]. split; [by split|].
  by vm_compute.
Qed.

(** ** Order of the selected regions *)

Lemma load_filtered_data_uncached_Permutation
  db regions regions' start_date end_date :
  regions' ≡ₚ regions →
  load_filtered_data_uncached db regions' start_date end_date
  = load_filtered_data_uncached db regions start_date end_date.
Proof.
  intros Hperm. unfold load_filtered_data_uncached.
  by rewrite (base_df_Permutation db _ _ start_date end_date Hperm).
Qed.

(** C9, as the code has it.  For every valid filter selection and every
    permutation of the selected-regions list, the pipeline returns a bundle
    equal to the one for the original list, from any state and leaving the
    same state; so does the body on its own. *)
Theorem load_filtered_data_region_order a regions regions' start_date end_date :
  valid_selection regions start_date end_date → regions' ≡ₚ regions →
  load_filtered_data a regions' start_date end_date
  = load_filtered_data a regions start_date end_date
  ∧ load_filtered_data_uncached (session a) regions' start_date end_date
    = load_filtered_data_uncached (session a) regions start_date end_date.
Proof.
  intros _ Hperm. unfold load_filtered_data, cache_key.
  by rewrite (load_filtered_data_uncached_Permutation _ _ _ _ _ Hperm).
Qed.

Lemma load_filtered_data_region_order_witness :
  valid_selection ["ASIA"; "EUROPE"] min_date max_date
  ∧ ["EUROPE"; "ASIA"] ≡ₚ ["ASIA"; "EUROPE"]
  ∧ load_filtered_data (start tiny_warehouse) ["EUROPE"; "ASIA"]
      min_date max_date
    = load_filtered_data (start tiny_warehouse) ["ASIA"; "EUROPE"]
        min_date max_date
  ∧ load_filtered_data_uncached tiny_warehouse ["EUROPE"; "ASIA"]
      min_date max_date
    = load_filtered_data_uncached tiny_warehouse ["ASIA"; "EUROPE"]
        min_date max_date.
Proof.
  assert (valid_selection ["ASIA"; "EUROPE"] min_date max_date) as Hvalid
    by (split; [discriminate|reflexivity]).
  assert (["EUROPE"; "ASIA"] ≡ₚ ["ASIA"; "EUROPE"]) as Hperm
    by apply perm_swap.
  split; [exact Hvalid|]. split; [exact Hperm|].
  exact (load_filtered_data_region_order (start tiny_warehouse) _ _ _ _
           Hvalid Hperm).
Defined.

(** C9, as stated, fails on the cache key: the region list is not part of
    it, so two orderings of the list share one key. *)
Lemma cache_key_region_order_counterexample :
  valid_selection ["ASIA"; "EUROPE"] min_date max_date
  ∧ ["EUROPE"; "ASIA"] ≡ₚ ["ASIA"; "EUROPE"]
  ∧ ["EUROPE"; "ASIA"] ≠ ["ASIA"; "EUROPE"]
  ∧ ¬ (cache_key ["EUROPE"; "ASIA"] min_date max_date
       ≠ cache_key ["ASIA"; "EUROPE"] min_date max_date).
Proof.
  split; [by split|]. split; [apply perm_swap|]. split; [done|].
  intros Hne. by apply Hne.
Qed.

(** ** The region filter *)

(** What the body computes stays within the selected regions. *)
Lemma load_filtered_data_uncached_regions db regions start_date end_date :
  let data := load_filtered_data_uncached db regions start_date end_date in
  (∀ r, r ∈ region_revenue data → ByRegion.R_NAME r ∈ regions)
  ∧ (∀ r, r ∈ nation_revenue data → ByNation.R_NAME r ∈ regions).
Proof.
  simpl. split.
  - intros r (j & Hj & ->)%elem_of_region_revenue.
    by eapply base_df_region.
  - intros r (j & Hj & _ & -> & _)%elem_of_nation_revenue.
    by eapply base_df_region.
Qed.

(** Through the cache the region list stops mattering once the two dates
    have been seen: every later call for those dates returns the bundle of
    the first one, whatever regions it asks for. *)
Lemma load_filtered_data_serves_first_regions
  a regions regions' start_date end_date a' :
  let first := load_filtered_data a regions start_date end_date in
  reruns first.2 a' →
  load_filtered_data a' regions' start_date end_date = (first.1, a').
Proof.
  intros first Hruns. apply load_filtered_data_hit.
  change (cache_key regions' start_date end_date)
    with (cache_key regions start_date end_date).
  apply (reruns_keeps _ _ _ _ Hruns), load_filtered_data_stores.
Qed.

(** C10 at the failing input.  After a first run with ASIA and EUROPE, a
    call for ASIA alone over the same dates is served the cached bundle:
    its [region_revenue] and its [nation_revenue] both hold a EUROPE row. *)
Theorem region_filter_escaped_through_cache :
  reachable tiny_warehouse after_first_run
  ∧ valid_selection ["ASIA"] min_date max_date
  ∧ let data := (load_filtered_data after_first_run ["ASIA"]
                   min_date max_date).1 in
    region_revenue data !! 0%nat
    = Some {| ByRegion.R_NAME := "EUROPE"; ByRegion.REVENUE := Some 10000;
              ByRegion.ORDERS := 1 |}
    ∧ nation_revenue data !! 1%nat
      = Some {| ByNation.N_NAME := "FRANCE"; ByNation.R_NAME := "EUROPE";
                ByNation.REVENUE := Some 10000 |}
    ∧ ("EUROPE" ∉ ["ASIA"])
    ∧ data = load_filtered_data_uncached tiny_warehouse ["ASIA"; "EUROPE"]
               min_date max_date
    ∧ data ≠ load_filtered_data_uncached tiny_warehouse ["ASIA"]
               min_date max_date.
Proof.
  split; [apply after_first_run_reachable|]. split; [by split|].
  split; [by vm_compute|]. split; [by vm_compute|].
  split; [by intros ?%list_elem_of_singleton|].
  split; [by vm_compute|].
  intros Heq. apply (f_equal total_orders) in Heq. by vm_compute in Heq.
Qed.

(** * Further properties of the code *)

(** ** Joins *)

Section join_facts.
Context {A B : Type}.
Implicit Types (left : list A) (right : list B) (on : A → B → bool).

Lemma join_cons a left right on :
  join (a :: left) right on
  = (right ≫= λ b, if on a b then [(a, b)] else []) ++ join left right on.
Proof. done. Qed.

Lemma elem_of_join left right on a b :
  (a, b) ∈ join left right on ↔ a ∈ left ∧ b ∈ right ∧ on a b = true.
Proof.
  unfold join. rewrite list_elem_of_bind. split.
  - intros (a' & Hab & Ha'). apply list_elem_of_bind in Hab as (b' & Hab & Hb').
    destruct (on a' b') eqn:Hon; [|by apply not_elem_of_nil in Hab].
    apply list_elem_of_singleton in Hab. by simplify_eq.
  - intros (Ha & Hb & Hon). exists a. split; [|done].
    apply list_elem_of_bind. exists b. split; [|done].
    rewrite Hon. by apply list_elem_of_singleton.
Qed.

Lemma matches_of_filter (P : A → Prop) `{∀ a, Decision (P a)} a right on :
  filter (λ p : A * B, P p.1) (right ≫= λ b, if on a b then [(a, b)] else [])
  = if decide (P a) then right ≫= λ b, if on a b then [(a, b)] else [] else [].
Proof.
  induction right as [|b right IH]; [by destruct (decide (P a))|].
  rewrite bind_cons, filter_app, IH.
  destruct (on a b); destruct (decide (P a)) as [HP|HP]; simpl; try done.
  - by rewrite filter_cons_True.
  - by rewrite filter_cons_False.
Qed.

(** Filtering the left table before a join is filtering the joined rows. *)
Lemma join_filter_l (P : A → Prop) `{∀ a, Decision (P a)} left right on :
  join (filter P left) right on
  = filter (λ p, P p.1) (join left right on).
Proof.
  induction left as [|a left IH]; [done|].
  rewrite join_cons, filter_app, matches_of_filter, <- IH, filter_cons.
  by destruct (decide (P a)).
Qed.
End join_facts.

(** ** The base relation, again *)

Lemma sublist_filter_impl {A} (P Q : A → Prop)
  `{∀ x, Decision (P x), ∀ x, Decision (Q x)} (l : list A) :
  (∀ x, P x → Q x) → filter P l `sublist_of` filter Q l.
Proof.
  intros HPQ. induction l as [|x l IH]; [done|].
  rewrite !filter_cons. destruct (decide (P x)) as [HP|HP].
  - rewrite decide_True by auto. by constructor.
  - destruct (decide (Q x)); [by constructor|done].
Qed.

Lemma filter_app_exclusive {A} (P Q : A → Prop)
  `{∀ x, Decision (P x), ∀ x, Decision (Q x)} (l : list A) :
  (∀ x, P x → Q x → False) →
  filter (λ x, P x ∨ Q x) l ≡ₚ filter P l ++ filter Q l.
Proof.
  intros Hexcl. induction l as [|x l IH]; [done|].
  rewrite !filter_cons.
  destruct (decide (P x)) as [HP|HP]; destruct (decide (Q x)) as [HQ|HQ].
  - destruct (Hexcl x HP HQ).
  - rewrite decide_True by auto. simpl. by rewrite IH.
  - rewrite decide_True by auto. rewrite IH. apply Permutation_middle.
  - rewrite decide_False by tauto. done.
Qed.

Section selection_facts.
Variable db : database.

(** X1. The date filter, applied to the orders before the three joins, acts
    as if it were applied after them: the base relation is the resolved
    orders that fall into the selection, in the same order and with the same
    multiplicity. *)
Theorem base_df_filters_resolved_orders regions start_date end_date :
  base_df db regions start_date end_date
  = filter (in_selection regions start_date end_date) (resolved_orders db).
Proof.
  unfold base_df, resolved_orders. rewrite !join_filter_l.
  rewrite list_filter_filter. apply list_filter_iff.
  intros [[[o c] n] r]. unfold in_selection, ord, reg. simpl. tauto.
Qed.

(** X2. A row is in the base relation exactly when its four parts are rows
    of the four tables, linked by the three foreign keys, the order date
    lies in the closed interval and the region name is selected. *)
Theorem elem_of_base_df regions start_date end_date o c n r :
  (o, c, n, r) ∈ base_df db regions start_date end_date ↔
  (o ∈ ORDERS db ∧ c ∈ CUSTOMER db ∧ n ∈ NATION db ∧ r ∈ REGION db)
  ∧ (O_CUSTKEY o = C_CUSTKEY c
     ∧ C_NATIONKEY c = N_NATIONKEY n
     ∧ N_REGIONKEY n = R_REGIONKEY r)
  ∧ (date_le start_date (O_ORDERDATE o) ∧ date_le (O_ORDERDATE o) end_date)
  ∧ R_NAME r ∈ regions.
Proof.
  rewrite base_df_filters_resolved_orders, list_elem_of_filter.
  unfold resolved_orders, in_selection, ord, reg. simpl.
  rewrite !elem_of_join, !bool_decide_eq_true. simpl. tauto.
Qed.

(** X3. Widening the selection only adds rows: with more regions, an
    earlier start or a later end, the old base relation is a sublist of the
    new one, so no count can drop. *)
Theorem base_df_monotone regions regions' start_date start_date'
  end_date end_date' :
  regions ⊆ regions' →
  date_le start_date' start_date → date_le end_date end_date' →
  base_df db regions start_date end_date
    `sublist_of` base_df db regions' start_date' end_date'
  ∧ (total_orders (load_filtered_data_uncached db regions start_date end_date)
     ≤ total_orders
         (load_filtered_data_uncached db regions' start_date' end_date'))%nat.
Proof.
  intros Hsub Hstart Hend.
  assert (base_df db regions start_date end_date
            `sublist_of` base_df db regions' start_date' end_date') as Hbase.
  { rewrite !base_df_filters_resolved_orders. apply sublist_filter_impl.
    intros j [[H1 H2] H3]. split_and!; [by etrans|by etrans|by apply Hsub]. }
  split; [done|]. simpl. by apply sublist_length.
Qed.

(** X4. Region lists with no name in common split the base relation: the
    rows of the two lists together are the rows of the one and the rows of
    the other, so the order count of both is the sum of theirs. *)
Theorem disjoint_regions_add_up regions1 regions2 start_date end_date :
  regions1 ## regions2 →
  base_df db (regions1 ++ regions2) start_date end_date
  ≡ₚ base_df db regions1 start_date end_date
     ++ base_df db regions2 start_date end_date
  ∧ total_orders
      (load_filtered_data_uncached db (regions1 ++ regions2)
         start_date end_date)
    = (total_orders
         (load_filtered_data_uncached db regions1 start_date end_date)
       + total_orders
           (load_filtered_data_uncached db regions2 start_date end_date))%nat.
Proof.
  intros Hdisj.
  assert (base_df db (regions1 ++ regions2) start_date end_date
          ≡ₚ base_df db regions1 start_date end_date
             ++ base_df db regions2 start_date end_date) as Hperm.
  { rewrite !base_df_filters_resolved_orders.
    rewrite <- filter_app_exclusive.
    - erewrite list_filter_iff; [done|].
      intros j. unfold in_selection. rewrite elem_of_app. tauto.
    - intros j [_ H1] [_ H2]. by apply (Hdisj (R_NAME (reg j))). }
  split; [done|]. simpl. by rewrite Hperm, length_app.
Qed.
End selection_facts.

(** ** Grouped aggregates *)

Section grouped_facts.
Context {K : Type} `{EqDecision K} (key : joined_row → K).
Variable base : list joined_row.

Lemma group_counts :
  sum_list ((λ g, F_count (O_ORDERKEY ∘ ord <$> g.2)) <$> group_by key base)
  = length base.
Proof.
  rewrite sum_list_foldr, <- (length_fmap (O_ORDERKEY ∘ ord) base).
  apply (measure_group_by key Nat.add 0%nat (λ _, 1%nat)
           (λ g, F_count (O_ORDERKEY ∘ ord <$> g))); try done; lia.
Qed.

Lemma group_by_NoDup : NoDup (group_by key base).*1.
Proof. rewrite group_by_keys. apply NoDup_remove_dups. Qed.

Lemma group_by_rows k g :
  (k, g) ∈ group_by key base → g = rows_with key k base ∧ g ≠ [].
Proof.
  intros Hg. split; [|by eapply group_by_nonempty].
  by apply elem_of_group_by in Hg as [_ ->].
Qed.

Lemma elem_of_group_by_keys k :
  k ∈ (group_by key base).*1 ↔ ∃ j, j ∈ base ∧ key j = k.
Proof.
  rewrite group_by_keys, elem_of_remove_dups, list_elem_of_fmap. split.
  - intros (j & -> & Hj). eauto.
  - intros (j & Hj & <-). eauto.
Qed.

Lemma rows_with_nonempty j : j ∈ base → rows_with key (key j) base ≠ [].
Proof.
  intros Hj Hnil.
  assert (j ∈ rows_with key (key j) base) as Hin
    by by apply list_elem_of_filter.
  rewrite Hnil in Hin. by apply not_elem_of_nil in Hin.
Qed.
End grouped_facts.

Lemma F_avg_nonempty vals :
  vals ≠ [] →
  F_avg vals = Some (Qmake (total vals) (Pos.of_nat (length vals))).
Proof. by destruct vals. Qed.

(** ** The summary metrics *)

Lemma order_by_eq_nil {A} (R : relation A) `{∀ x y, Decision (R x y)}
  (df : list A) : order_by R df = [] ↔ df = [].
Proof.
  unfold order_by. split; [|by intros ->].
  intros Hnil. apply Permutation_nil_r. rewrite <- Hnil.
  by rewrite merge_sort_Permutation.
Qed.

Lemma grouped_eq_nil {A K R} `{EqDecision K} (key : A → K)
  (row : K → list A → R) (df : list A) :
  agg row (group_by key df) = [] ↔ df = [].
Proof.
  rewrite agg_eq_nil. split; [apply group_by_eq_nil|by intros ->].
Qed.

(** X5. A bundle is empty all at once: [total_revenue] is NULL, or
    [avg_order_value] is NULL, or any one of the five tables has no row,
    exactly when [total_orders] is 0. *)
Theorem bundle_empty_all_at_once db regions start_date end_date :
  let data := load_filtered_data_uncached db regions start_date end_date in
  (total_revenue data = None ↔ total_orders data = 0%nat)
  ∧ (avg_order_value data = None ↔ total_orders data = 0%nat)
  ∧ (monthly_revenue data = [] ↔ total_orders data = 0%nat)
  ∧ (region_revenue data = [] ↔ total_orders data = 0%nat)
  ∧ (segment_analysis data = [] ↔ total_orders data = 0%nat)
  ∧ (priority_analysis data = [] ↔ total_orders data = 0%nat)
  ∧ (nation_revenue data = [] ↔ total_orders data = 0%nat).
Proof.
  simpl. set (base := base_df db regions start_date end_date).
  rewrite length_zero_iff_nil. split_and!.
  - by destruct base.
  - by destruct base.
  - unfold monthly_revenue_of. rewrite order_by_eq_nil, grouped_eq_nil.
    unfold with_column. split; [apply fmap_nil_inv|by intros ->].
  - unfold region_revenue_of. apply grouped_eq_nil.
  - unfold segment_analysis_of. apply grouped_eq_nil.
  - unfold priority_analysis_of. by rewrite order_by_eq_nil, grouped_eq_nil.
  - unfold nation_revenue_of, limit.
    etrans; [|apply (grouped_eq_nil (λ j, (N_NAME (nat_ j), R_NAME (reg j)))
                       (λ k g, {| ByNation.N_NAME := k.1;
                                  ByNation.R_NAME := k.2;
                                  ByNation.REVENUE := F_sum (price <$> g) |})
                       base)].
    etrans; [|apply (order_by_eq_nil by_revenue_desc)].
    by destruct (order_by by_revenue_desc _).
Qed.

(** ** Segment analysis *)

(** X6. The segment table has one row per market segment that occurs in the
    base relation.  Each row holds the order count and the exact revenue
    sum of its segment's rows, and a mean that is not NULL; the counts add
    up to [total_orders]. *)
Theorem segment_analysis_consistent db regions start_date end_date :
  let base := base_df db regions start_date end_date in
  let data := load_filtered_data_uncached db regions start_date end_date in
  NoDup (BySegment.C_MKTSEGMENT <$> segment_analysis data)
  ∧ (∀ segment,
       segment ∈ BySegment.C_MKTSEGMENT <$> segment_analysis data ↔
       ∃ j, j ∈ base ∧ C_MKTSEGMENT (cust j) = segment)
  ∧ (∀ x, x ∈ segment_analysis data →
       let group :=
         rows_with (λ j, C_MKTSEGMENT (cust j)) (BySegment.C_MKTSEGMENT x)
           base in
       BySegment.ORDERS x = length group
       ∧ BySegment.ORDERS x ≠ 0%nat
       ∧ BySegment.REVENUE x = Some (total (price <$> group))
       ∧ is_Some (BySegment.AVG_ORDER x))
  ∧ sum_list (BySegment.ORDERS <$> segment_analysis data)
    = total_orders data.
Proof.
  intros base data. subst data. simpl. fold base.
  unfold segment_analysis_of, agg. split_and!.
  - rewrite <- list_fmap_compose.
    apply (group_by_NoDup (λ j, C_MKTSEGMENT (cust j)) base).
  - intros segment. rewrite <- list_fmap_compose.
    apply (elem_of_group_by_keys (λ j, C_MKTSEGMENT (cust j)) base).
  - intros x ([k g] & -> & Hg)%list_elem_of_fmap. simpl.
    apply group_by_rows in Hg as [-> Hne].
    assert (length (rows_with (λ j, C_MKTSEGMENT (cust j)) k base) ≠ 0%nat)
      as Hlen by by destruct (rows_with _ k base).
    unfold F_count. rewrite length_fmap. split_and!; [done..| |].
    + apply F_sum_nonempty. by intros ?%fmap_nil_inv.
    + rewrite F_avg_nonempty; [done|]. by intros ?%fmap_nil_inv.
  - rewrite <- list_fmap_compose.
    apply (group_counts (λ j, C_MKTSEGMENT (cust j)) base).
Qed.

(** ** Revenue by region, row by row *)

(** X7. The region table has one row per region name that occurs in the
    base relation: a selected region without an order in the range has no
    row.  Each row holds the order count and the revenue sum of its region's
    rows. *)
Theorem region_revenue_rows db regions start_date end_date :
  let base := base_df db regions start_date end_date in
  let data := load_filtered_data_uncached db regions start_date end_date in
  NoDup (ByRegion.R_NAME <$> region_revenue data)
  ∧ (∀ name,
       name ∈ ByRegion.R_NAME <$> region_revenue data ↔
       ∃ j, j ∈ base ∧ R_NAME (reg j) = name)
  ∧ ∀ x, x ∈ region_revenue data →
      let group := rows_with (λ j, R_NAME (reg j)) (ByRegion.R_NAME x) base in
      ByRegion.ORDERS x = length group
      ∧ ByRegion.ORDERS x ≠ 0%nat
      ∧ ByRegion.REVENUE x = Some (total (price <$> group)).
Proof.
  intros base data. subst data. simpl. fold base.
  unfold region_revenue_of, agg. split_and!.
  - rewrite <- list_fmap_compose.
    apply (group_by_NoDup (λ j, R_NAME (reg j)) base).
  - intros name. rewrite <- list_fmap_compose.
    apply (elem_of_group_by_keys (λ j, R_NAME (reg j)) base).
  - intros x ([k g] & -> & Hg)%list_elem_of_fmap. simpl.
    apply group_by_rows in Hg as [-> Hne].
    assert (length (rows_with (λ j, R_NAME (reg j)) k base) ≠ 0%nat)
      as Hlen by by destruct (rows_with _ k base).
    unfold F_count. rewrite length_fmap. split_and!; [done..|].
    apply F_sum_nonempty. by intros ?%fmap_nil_inv.
Qed.

(** ** Priority analysis against the summary *)

(** X8. The order counts of the priority table add up to [total_orders]:
    the shares of the chart are shares of the whole. *)
Theorem priority_analysis_adds_up db regions start_date end_date :
  let data := load_filtered_data_uncached db regions start_date end_date in
  sum_list (ByPriority.ORDERS <$> priority_analysis data) = total_orders data.
Proof.
  simpl. set (base := base_df db regions start_date end_date).
  unfold priority_analysis_of, order_by.
  rewrite merge_sort_Permutation. unfold agg.
  rewrite <- list_fmap_compose.
  apply (group_counts (λ j, O_ORDERPRIORITY (ord j)) base).
Qed.

(** ** Monthly revenue, row by row *)

Lemma date_le_antisym a b : date_le a b → date_le b a → a = b.
Proof.
  rewrite !date_le_spec. destruct a, b; simpl. intros ??. f_equal; lia.
Qed.

Lemma date_le_neq_lt a b : date_le a b → a ≠ b → date_lt a b.
Proof.
  intros Hle Hne. unfold date_lt.
  destruct (date_leb b a) eqn:Hba; [|done].
  destruct Hne. by apply date_le_antisym.
Qed.

Lemma date_trunc_month_mono a b :
  date_le a b → date_le (date_trunc_month a) (date_trunc_month b).
Proof. rewrite !date_le_spec. simpl. lia. Qed.

Lemma filter_with_column {A B} (expr : A → B) (P : B → Prop)
  `{∀ b, Decision (P b)} (df : list A) :
  fst <$> filter (λ r, P r.2) (with_column expr df)
  = filter (λ r, P (expr r)) df.
Proof.
  unfold with_column. induction df as [|r df IH]; [done|].
  rewrite fmap_cons, !filter_cons. simpl.
  destruct (decide (P (expr r))); [rewrite fmap_cons|]; by rewrite IH.
Qed.

Lemma strictly_ordered_by_key {A} (key : A → date) (df : list A) :
  ordered (λ x y, date_le (key x) (key y)) df →
  NoDup (key <$> df) →
  ordered (λ x y, date_lt (key x) (key y)) df.
Proof.
  intros Hle Hnodup i j x y Hij Hx Hy.
  apply date_le_neq_lt; [by apply (Hle i j)|].
  intros Heq. assert (i = j); [|lia].
  apply (NoDup_lookup (key <$> df) i j (key x)); [done|..].
  - by rewrite list_lookup_fmap, Hx.
  - by rewrite list_lookup_fmap, Hy, Heq.
Qed.

Section monthly_facts.
Variable base : list joined_row.

Lemma monthly_revenue_months :
  Monthly.YEAR_MONTH <$> monthly_revenue_of base
  ≡ₚ remove_dups (order_month <$> base).
Proof.
  unfold monthly_revenue_of, order_by. rewrite merge_sort_Permutation.
  unfold agg. rewrite <- list_fmap_compose.
  change (Monthly.YEAR_MONTH ∘ _) with (@fst date (list (joined_row * date))).
  rewrite group_by_keys. unfold with_column.
  by rewrite <- list_fmap_compose.
Qed.

Lemma elem_of_monthly_revenue x :
  x ∈ monthly_revenue_of base →
  (∃ j, j ∈ base ∧ order_month j = Monthly.YEAR_MONTH x)
  ∧ Monthly.REVENUE x
    = Some (total (price <$> rows_with order_month (Monthly.YEAR_MONTH x)
                               base)).
Proof.
  unfold monthly_revenue_of.
  intros (k & g & Hg & ->)%elem_of_order_by%elem_of_agg. simpl.
  pose proof (group_by_nonempty _ _ _ _ Hg) as Hne.
  apply elem_of_group_by in Hg as [((j & d) & Hj & Hk) ->].
  simpl in Hk. subst d. unfold with_column in Hj.
  apply list_elem_of_fmap in Hj as (j' & [= -> Hk] & Hj). split; [eauto|].
  rewrite F_sum_nonempty by by intros ?%fmap_nil_inv.
  rewrite list_fmap_compose. do 3 f_equal.
  exact (filter_with_column order_month (λ d, d = k) base).
Qed.

End monthly_facts.

(** X9. The monthly table has exactly one row per calendar month in which
    the base relation has an order, and no other row, in strictly
    increasing order of the month.  Each YEAR_MONTH is a first day of a
    month between the months of the start and the end date, and each
    REVENUE is the exact sum over that month's orders, of which there is at
    least one. *)
Theorem monthly_revenue_rows db regions start_date end_date :
  let base := base_df db regions start_date end_date in
  let data := load_filtered_data_uncached db regions start_date end_date in
  ordered (λ x y, date_lt (Monthly.YEAR_MONTH x) (Monthly.YEAR_MONTH y))
    (monthly_revenue data)
  ∧ (∀ month,
       month ∈ Monthly.YEAR_MONTH <$> monthly_revenue data ↔
       ∃ j, j ∈ base ∧ order_month j = month)
  ∧ ∀ x, x ∈ monthly_revenue data →
      let group := rows_with order_month (Monthly.YEAR_MONTH x) base in
      group ≠ []
      ∧ day (Monthly.YEAR_MONTH x) = 1
      ∧ date_le (date_trunc_month start_date) (Monthly.YEAR_MONTH x)
      ∧ date_le (Monthly.YEAR_MONTH x) (date_trunc_month end_date)
      ∧ Monthly.REVENUE x = Some (total (price <$> group)).
Proof.
  intros base data. subst data. simpl. fold base. split_and!.
  - apply strictly_ordered_by_key; [apply monthly_revenue_ordered|].
    rewrite monthly_revenue_months. apply NoDup_remove_dups.
  - intros month.
    rewrite monthly_revenue_months, elem_of_remove_dups, list_elem_of_fmap.
    split.
    + intros (j & -> & Hj). eauto.
    + intros (j & Hj & <-). eauto.
  - intros x Hx.
    destruct (elem_of_monthly_revenue base x Hx) as [(j & Hj & Hmonth) Hrev].
    rewrite <- Hmonth. split; [by apply rows_with_nonempty|].
    apply (base_df_order_date db) in Hj as (_ & Hstart & Hend).
    split_and!; [done|by apply date_trunc_month_mono..|].
    by rewrite Hmonth.
Qed.

(** ** Top nations, row by row *)

Section nation_facts.
Variable base : list joined_row.

Lemma nation_revenue_keys_sublist :
  ∃ keys,
    keys ≡ₚ remove_dups (nation_key <$> base)
    ∧ (λ x, (ByNation.N_NAME x, ByNation.R_NAME x)) <$> nation_revenue_of base
      = take 10 keys.
Proof.
  unfold nation_revenue_of, limit, order_by.
  eexists. split; [|apply fmap_take].
  rewrite merge_sort_Permutation. unfold agg.
  rewrite <- list_fmap_compose, <- (group_by_keys nation_key).
  apply reflexive_eq, list_fmap_ext. by intros i [[name region] g] _.
Qed.

Lemma nation_total_listed j :
  j ∈ base →
  {| ByNation.N_NAME := (nation_key j).1;
     ByNation.R_NAME := (nation_key j).2;
     ByNation.REVENUE :=
       Some (total (price <$> rows_with nation_key (nation_key j) base)) |}
  ∈ order_by by_revenue_desc
      (agg (λ k g, {| ByNation.N_NAME := k.1;
                      ByNation.R_NAME := k.2;
                      ByNation.REVENUE := F_sum (price <$> g) |})
         (group_by (λ j, (N_NAME (nat_ j), R_NAME (reg j))) base)).
Proof.
  intros Hj. apply elem_of_order_by, elem_of_agg.
  exists (nation_key j), (rows_with nation_key (nation_key j) base).
  split; [apply elem_of_group_by; eauto|].
  rewrite F_sum_nonempty; [done|].
  intros ?%fmap_nil_inv. by eapply rows_with_nonempty.
Qed.

Lemma nation_revenue_row x :
  x ∈ nation_revenue_of base →
  ∃ j, j ∈ base
       ∧ nation_key j = (ByNation.N_NAME x, ByNation.R_NAME x)
       ∧ ByNation.REVENUE x
         = Some (total (price <$> rows_with nation_key (nation_key j) base)).
Proof.
  unfold nation_revenue_of, limit. intros Hx%subseteq_take.
  apply elem_of_order_by, elem_of_agg in Hx as (k & g & Hg & ->).
  pose proof (group_by_nonempty _ _ _ _ Hg) as Hne.
  apply elem_of_group_by in Hg as [(j & Hj & <-) ->].
  exists j. simpl. split_and!; [done..|].
  rewrite F_sum_nonempty; [done|]. by intros ?%fmap_nil_inv.
Qed.
End nation_facts.

(** X10. The nation table shows the (nation, region) pairs of highest
    revenue: pairs are not repeated, there are 10 rows or as many as there
    are pairs when fewer, each row holds the revenue sum of its pair, and
    a pair of the base relation that is not shown has a revenue no higher
    than any row shown. *)
Theorem nation_revenue_is_top db regions start_date end_date :
  let base := base_df db regions start_date end_date in
  let data := load_filtered_data_uncached db regions start_date end_date in
  let shown :=
    (λ x, (ByNation.N_NAME x, ByNation.R_NAME x)) <$> nation_revenue data in
  NoDup shown
  ∧ length (nation_revenue data)
    = (10 `min` length (remove_dups (nation_key <$> base)))%nat
  ∧ (∀ x, x ∈ nation_revenue data →
       ∃ j, j ∈ base
            ∧ nation_key j = (ByNation.N_NAME x, ByNation.R_NAME x)
            ∧ ByNation.REVENUE x
              = Some (total (price <$> rows_with nation_key (nation_key j)
                                         base)))
  ∧ ∀ j x,
      j ∈ base → nation_key j ∉ shown → x ∈ nation_revenue data →
      ∃ revenue,
        ByNation.REVENUE x = Some revenue
        ∧ total (price <$> rows_with nation_key (nation_key j) base)
          ≤ revenue.
Proof.
  intros base data shown. subst data shown. simpl. fold base.
  destruct (nation_revenue_keys_sublist base) as (keys & Hkeys & Hshown).
  split_and!.
  - rewrite Hshown. eapply sublist_NoDup; [|apply sublist_take].
    rewrite Hkeys. apply NoDup_remove_dups.
  - rewrite <- (length_fmap (λ x, (ByNation.N_NAME x, ByNation.R_NAME x))).
    by rewrite Hshown, length_take, Hkeys.
  - apply nation_revenue_row.
  - intros j x Hj Hhidden Hx.
    destruct (nation_revenue_row base x Hx) as (jx & _ & _ & Hrev).
    pose proof (nation_total_listed base j Hj) as Hy.
    set (y := {| ByNation.N_NAME := (nation_key j).1 |}) in Hy.
    set (sorted := order_by by_revenue_desc _) in Hy.
    assert (ordered by_revenue_desc sorted) as Hsorted
      by (apply order_by_ordered; apply _).
    rewrite <- (take_drop 10 sorted) in Hy.
    apply elem_of_app in Hy as [Hy|Hy].
    { destruct Hhidden. apply list_elem_of_fmap. by exists y. }
    apply list_elem_of_lookup_1 in Hy as [iy Hy]. rewrite lookup_drop in Hy.
    apply elem_of_take in Hx as (ix & Hx & Hix).
    pose proof (Hsorted ix (10 + iy)%nat x y ltac:(lia) Hx Hy) as Hdesc.
    unfold by_revenue_desc in Hdesc. subst y. rewrite Hrev in Hdesc.
    rewrite Hrev. eauto.
Qed.

(** ** The parameter resolver *)

Lemma foldr_date_min v vals :
  foldr date_min v vals ∈ v :: vals
  ∧ ∀ u, u ∈ v :: vals → date_le (foldr date_min v vals) u.
Proof.
  induction vals as [|x vals [IHin IHle]]; simpl.
  - split; [left|]. intros u ->%list_elem_of_singleton. reflexivity.
  - unfold date_min at 1 3.
    destruct (date_leb x (foldr date_min v vals)) eqn:Hx.
    + split; [right; left|]. intros u Hu.
      apply elem_of_cons in Hu as [->|Hu]; [by etrans; [|apply IHle; left]|].
      apply elem_of_cons in Hu as [->|Hu]; [reflexivity|].
      etrans; [exact Hx|]. apply IHle. by right.
    + split.
      { apply elem_of_cons in IHin as [Hin|Hin]; [rewrite Hin; left|].
        by do 2 right. }
      intros u Hu.
      apply elem_of_cons in Hu as [->|Hu]; [apply IHle; left|].
      apply elem_of_cons in Hu as [->|Hu]; [|apply IHle; by right].
      destruct (date_le_total x (foldr date_min v vals)) as [Hle|Hle];
        [|done]. unfold date_le in Hle. congruence.
Qed.

Lemma foldr_date_max v vals :
  foldr date_max v vals ∈ v :: vals
  ∧ ∀ u, u ∈ v :: vals → date_le u (foldr date_max v vals).
Proof.
  induction vals as [|x vals [IHin IHle]]; simpl.
  - split; [left|]. intros u ->%list_elem_of_singleton. reflexivity.
  - unfold date_max at 1 3.
    destruct (date_leb x (foldr date_max v vals)) eqn:Hx.
    + split.
      { apply elem_of_cons in IHin as [Hin|Hin]; [rewrite Hin; left|].
        by do 2 right. }
      intros u Hu.
      apply elem_of_cons in Hu as [->|Hu]; [apply IHle; left|].
      apply elem_of_cons in Hu as [->|Hu]; [exact Hx|apply IHle; by right].
    + assert (date_le (foldr date_max v vals) x) as Hle.
      { destruct (date_le_total x (foldr date_max v vals)) as [Hle|Hle];
          [|done]. unfold date_le in Hle. congruence. }
      split; [right; left|]. intros u Hu.
      apply elem_of_cons in Hu as [->|Hu]; [by etrans; [apply IHle; left|]|].
      apply elem_of_cons in Hu as [->|Hu]; [reflexivity|].
      etrans; [|exact Hle]. apply IHle. by right.
Qed.

(** X11. The first call of [get_date_range] returns two NULLs when there
    is no order, and otherwise the earliest and the latest order date: both
    are dates of orders and every order date lies between them.  Later
    calls return the same pair, whatever the warehouse holds by then. *)
Theorem get_date_range_bounds db m :
  date_range_entry m = None →
  let first := get_date_range db m in
  match first.1 with
  | (Some lo, Some hi) =>
      lo ∈ O_ORDERDATE <$> ORDERS db
      ∧ hi ∈ O_ORDERDATE <$> ORDERS db
      ∧ ∀ o, o ∈ ORDERS db →
             date_le lo (O_ORDERDATE o) ∧ date_le (O_ORDERDATE o) hi
  | (None, None) => ORDERS db = []
  | _ => False
  end
  ∧ ∀ db', get_date_range db' first.2 = (first.1, first.2).
Proof.
  intros Hentry. unfold get_date_range. rewrite Hentry. simpl. split; [|done].
  destruct (ORDERS db) as [|o orders]; [done|]. simpl.
  destruct (foldr_date_min (O_ORDERDATE o) (O_ORDERDATE <$> orders))
    as [Hlo_in Hlo].
  destruct (foldr_date_max (O_ORDERDATE o) (O_ORDERDATE <$> orders))
    as [Hhi_in Hhi].
  split_and!; [done..|]. intros o' Ho'.
  assert (O_ORDERDATE o' ∈ O_ORDERDATE o :: (O_ORDERDATE <$> orders)) as Hin.
  { rewrite <- fmap_cons. apply list_elem_of_fmap. eauto. }
  split; [by apply Hlo|by apply Hhi].
Qed.

(** X12. The widgets' defaults filter nothing: with every region of
    [get_regions] selected and the date range of [get_date_range], the base
    relation is all of the resolved orders. *)
Theorem defaults_select_everything db m lo hi :
  regions_entry m = None → date_range_entry m = None →
  let regions := get_regions db m in
  let date_range := get_date_range db regions.2 in
  date_range.1 = (Some lo, Some hi) →
  base_df db regions.1 lo hi = resolved_orders db
  ∧ total_orders (load_filtered_data_uncached db regions.1 lo hi)
    = length (resolved_orders db).
Proof.
  intros Hregions Hdates regions date_range Hrange.
  assert (base_df db regions.1 lo hi = resolved_orders db) as Hbase.
  { destruct (get_date_range_bounds db regions.2) as [Hbounds _].
    { subst regions. unfold get_regions. by rewrite Hregions. }
    fold date_range in Hbounds. rewrite Hrange in Hbounds.
    destruct Hbounds as (_ & _ & Hbounds).
    rewrite base_df_filters_resolved_orders. apply filter_all.
    intros [[[o c] n] r]. unfold resolved_orders. intros Hj.
    apply elem_of_join in Hj as (Hj & Hr & _).
    apply elem_of_join in Hj as (Hj & _ & _).
    apply elem_of_join in Hj as (Ho & _ & _).
    split; [by apply Hbounds|].
    subst regions. unfold get_regions. rewrite Hregions. simpl.
    unfold get_regions_uncached, reg. simpl.
    apply list_elem_of_fmap. eauto. }
  split; [done|]. simpl. by rewrite Hbase.
Qed.

(** ** Queries and the cache *)

(** X14. A call whose dates are not yet in the cache computes the bundle
    of its own selection, and then no row of the region table or of the
    nation table has a region outside the selected ones. *)
Theorem first_call_respects_regions a regions start_date end_date :
  cache a !! cache_key regions start_date end_date = None →
  let data := (load_filtered_data a regions start_date end_date).1 in
  data = load_filtered_data_uncached (session a) regions start_date end_date
  ∧ (∀ x, x ∈ region_revenue data → ByRegion.R_NAME x ∈ regions)
  ∧ (∀ x, x ∈ nation_revenue data → ByNation.R_NAME x ∈ regions).
Proof.
  intros Hmiss data. subst data. rewrite load_filtered_data_miss by done.
  split; [done|]. apply load_filtered_data_uncached_regions.
Qed.

(** X15. Once a complete selection has been rendered, every later run of
    the page with the same two dates renders the very same dashboard and
    issues no query, whatever regions are selected then. *)
Theorem region_change_is_not_rendered
  a selected_regions selected_regions' start_date end_date a' :
  selected_regions ≠ [] → selected_regions' ≠ [] →
  let first := page a selected_regions [start_date; end_date] in
  reruns first.2 a' →
  page a' selected_regions' [start_date; end_date] = (first.1, a').
Proof.
  intros Hsel Hsel' first Hruns. subst first. revert Hruns. unfold page.
  rewrite !bool_decide_true, !bool_decide_false by done. simpl.
  destruct (load_filtered_data a selected_regions start_date end_date)
    as [data a1] eqn:Hload. simpl. intros Hruns.
  rewrite (load_filtered_data_serves_first_regions a selected_regions
             selected_regions' start_date end_date a').
  - by rewrite Hload.
  - by rewrite Hload.
Qed.

(** X16. Running the page again with the same widget values renders the
    same elements and changes nothing: no query is issued and the cache is
    as it was. *)
Theorem page_rerun_changes_nothing a selected_regions date_range :
  let first := page a selected_regions date_range in
  page first.2 selected_regions date_range = first.
Proof.
  simpl. unfold page.
  remember (bool_decide (length date_range = 2%nat)
            && negb (bool_decide (selected_regions = []))) as complete.
  destruct complete; [|done].
  destruct (load_filtered_data a selected_regions _ _) as [data a1] eqn:Hload.
  simpl.
  rewrite (load_filtered_data_serves_first_regions a selected_regions
             selected_regions (date_range !!! 0%nat) (date_range !!! 1%nat)
             a1); rewrite Hload; [done|apply reruns_refl].
Qed.

(** X17. Every bundle the page is served for a pair of dates was computed
    by the body for that very pair of dates over this warehouse and for
    some non-empty region list, which is the list of the call when the
    dates were not cached: a served bundle can be stale in its regions,
    never in its dates. *)
Theorem served_bundle_was_computed db a regions start_date end_date :
  reachable db a → regions ≠ [] →
  ∃ regions0,
    regions0 ≠ []
    ∧ (cache a !! cache_key regions start_date end_date = None →
       regions0 = regions)
    ∧ (load_filtered_data a regions start_date end_date).1
      = load_filtered_data_uncached db regions0 start_date end_date.
Proof.
  intros Hreach Hne.
  destruct (cache a !! cache_key regions start_date end_date) eqn:Hlook.
  - destruct (load_filtered_data_computed db a regions start_date end_date
                Hreach Hne) as (regions0 & Hne0 & Hdata).
    exists regions0. by split_and!.
  - exists regions. split_and!; [done..|].
    rewrite load_filtered_data_miss by done.
    by destruct (reachable_sound db a Hreach) as [-> _].
Qed.

(** ** Joins on a key *)

Section key_join_facts.
Context {A B K : Type} `{EqDecision K} (ka : A → K) (kr : B → K).

Lemma matches_none a right :
  ka a ∉ kr <$> right →
  (right ≫= λ b, if bool_decide (ka a = kr b) then [(a, b)] else []) = [].
Proof.
  induction right as [|b right IH]; [done|].
  rewrite fmap_cons, not_elem_of_cons. intros [Hb Hright].
  rewrite bind_cons, bool_decide_false by done. by apply IH.
Qed.

Lemma matches_at_most_one a right :
  NoDup (kr <$> right) →
  (right ≫= λ b, if bool_decide (ka a = kr b) then [(a, b)] else []).*1
    `sublist_of` [a].
Proof.
  induction right as [|b right IH]; [intros _; apply sublist_nil_l|].
  rewrite fmap_cons, NoDup_cons. intros [Hb Hright]. rewrite bind_cons.
  case_bool_decide as Hab.
  - rewrite matches_none by by rewrite Hab. done.
  - by apply IH.
Qed.

Lemma matches_exactly_one a right :
  NoDup (kr <$> right) → ka a ∈ kr <$> right →
  (right ≫= λ b, if bool_decide (ka a = kr b) then [(a, b)] else []).*1
  = [a].
Proof.
  induction right as [|b right IH]; [by intros _ ?%not_elem_of_nil|].
  rewrite fmap_cons, NoDup_cons, elem_of_cons. intros [Hb Hright] Hin.
  rewrite bind_cons. case_bool_decide as Hab.
  - rewrite matches_none by by rewrite Hab. done.
  - destruct Hin as [?|Hin]; [done|]. by apply IH.
Qed.

(** A join on a key of the right table repeats no left row. *)
Lemma join_on_key_sublist left right :
  NoDup (kr <$> right) →
  (join left right (λ a b, bool_decide (ka a = kr b))).*1 `sublist_of` left.
Proof.
  intros Hkey. induction left as [|a left IH]; [done|].
  rewrite join_cons, fmap_app.
  apply (sublist_app _ [a] _ left); [by apply matches_at_most_one|done].
Qed.

(** When every left row finds its key, the join keeps each one once. *)
Lemma join_on_key_total left right :
  NoDup (kr <$> right) →
  (∀ a, a ∈ left → ka a ∈ kr <$> right) →
  (join left right (λ a b, bool_decide (ka a = kr b))).*1 = left.
Proof.
  intros Hkey. induction left as [|a left IH]; intros Href; [done|].
  rewrite join_cons, fmap_app.
  rewrite matches_exactly_one by (done || apply Href; left).
  rewrite IH; [done|]. intros a' Ha'. apply Href. by right.
Qed.
End key_join_facts.

(** ** Orders are counted once *)

Section primary_keys.
Variable db : database.
Hypothesis customer_key : NoDup (C_CUSTKEY <$> CUSTOMER db).
Hypothesis nation_key_unique : NoDup (N_NATIONKEY <$> NATION db).
Hypothesis region_key : NoDup (R_REGIONKEY <$> REGION db).

(** X18. When the customer, nation and region keys are unique, no order is
    counted twice: the orders of the base relation are a sublist of the
    orders placed in the date range, and [total_orders] does not exceed
    their number. *)
Theorem orders_counted_at_most_once regions start_date end_date :
  let in_range o :=
    date_le start_date (O_ORDERDATE o) ∧ date_le (O_ORDERDATE o) end_date in
  ord <$> base_df db regions start_date end_date
    `sublist_of` filter in_range (ORDERS db)
  ∧ (total_orders
       (load_filtered_data_uncached db regions start_date end_date)
     ≤ length (filter in_range (ORDERS db)))%nat.
Proof.
  intros in_range.
  assert (ord <$> base_df db regions start_date end_date
            `sublist_of` filter in_range (ORDERS db)) as Hsub.
  { unfold base_df.
    rewrite (list_fmap_ext ord (fst ∘ fst ∘ fst) _ (λ _ _ _, eq_refl)).
    rewrite !list_fmap_compose.
    etrans; [apply fmap_sublist, fmap_sublist, fmap_sublist, sublist_filter|].
    etrans; [apply fmap_sublist, fmap_sublist;
             by apply (join_on_key_sublist (λ ocn, N_REGIONKEY ocn.2))|].
    etrans; [apply fmap_sublist;
             by apply (join_on_key_sublist (λ oc, C_NATIONKEY oc.2))|].
    by apply (join_on_key_sublist O_CUSTKEY). }
  split; [done|]. simpl.
  rewrite <- (length_fmap ord). by apply sublist_length.
Qed.

Hypothesis orders_customer :
  ∀ o, o ∈ ORDERS db → O_CUSTKEY o ∈ C_CUSTKEY <$> CUSTOMER db.
Hypothesis customer_nation :
  ∀ c, c ∈ CUSTOMER db → C_NATIONKEY c ∈ N_NATIONKEY <$> NATION db.
Hypothesis nation_region :
  ∀ n, n ∈ NATION db → N_REGIONKEY n ∈ R_REGIONKEY <$> REGION db.

(** X19. When moreover every foreign key finds its row and every region
    name is selected, the base relation holds each order of the date range
    exactly once, in the order of the ORDERS table: [total_orders] is the
    number of orders placed in the range. *)
Theorem orders_counted_exactly_once regions start_date end_date :
  (∀ r, r ∈ REGION db → R_NAME r ∈ regions) →
  let in_range o :=
    date_le start_date (O_ORDERDATE o) ∧ date_le (O_ORDERDATE o) end_date in
  ord <$> base_df db regions start_date end_date
  = filter in_range (ORDERS db)
  ∧ total_orders (load_filtered_data_uncached db regions start_date end_date)
    = length (filter in_range (ORDERS db)).
Proof.
  intros Hall in_range.
  assert (ord <$> base_df db regions start_date end_date
          = filter in_range (ORDERS db)) as Heq.
  { unfold base_df.
    rewrite (list_fmap_ext ord (fst ∘ fst ∘ fst) _ (λ _ _ _, eq_refl)).
    rewrite !list_fmap_compose.
    rewrite filter_all.
    2:{ intros [ocn r] (_ & Hr & _)%elem_of_join. by apply Hall. }
    pose proof (λ left,
      join_on_key_total
        (λ ocn : orders_row * customer_row * nation_row, N_REGIONKEY ocn.2)
        R_REGIONKEY left (REGION db) region_key) as Hregion.
    pose proof (λ left,
      join_on_key_total
        (λ oc : orders_row * customer_row, C_NATIONKEY oc.2)
        N_NATIONKEY left (NATION db) nation_key_unique) as Hnation.
    pose proof (λ left,
      join_on_key_total O_CUSTKEY C_CUSTKEY left (CUSTOMER db) customer_key)
      as Hcustomer.
    cbv beta in Hregion, Hnation, Hcustomer.
    rewrite Hregion.
    2:{ intros [oc n] (_ & Hn & _)%elem_of_join. by apply nation_region. }
    rewrite Hnation.
    2:{ intros [o c] (_ & Hc & _)%elem_of_join. by apply customer_nation. }
    rewrite Hcustomer; [done|].
    intros o [_ Ho]%list_elem_of_filter. by apply orders_customer. }
  split; [done|]. simpl. by rewrite <- (length_fmap ord), Heq.
Qed.
End primary_keys.

(** ** Priority analysis, row by row *)

(** X20. Computed for a selection, the priority table has one row per
    order-priority label that occurs in the base relation of that
    selection; each row holds the order count and the revenue sum of its
    label's rows; and the rows are in ascending lexical order of the
    label. *)
Theorem priority_analysis_rows db regions start_date end_date :
  let base := base_df db regions start_date end_date in
  let data := load_filtered_data_uncached db regions start_date end_date in
  NoDup (ByPriority.O_ORDERPRIORITY <$> priority_analysis data)
  ∧ (∀ label,
       label ∈ ByPriority.O_ORDERPRIORITY <$> priority_analysis data ↔
       ∃ j, j ∈ base ∧ O_ORDERPRIORITY (ord j) = label)
  ∧ (∀ x, x ∈ priority_analysis data →
       let group :=
         rows_with (λ j, O_ORDERPRIORITY (ord j))
           (ByPriority.O_ORDERPRIORITY x) base in
       ByPriority.ORDERS x = length group
       ∧ ByPriority.ORDERS x ≠ 0%nat
       ∧ ByPriority.REVENUE x = Some (total (price <$> group)))
  ∧ ordered
      (λ x y, String.le (ByPriority.O_ORDERPRIORITY x)
                        (ByPriority.O_ORDERPRIORITY y))
      (priority_analysis data).
Proof.
  intros base data. subst data. simpl. fold base. split_and!.
  - apply priority_analysis_NoDup.
  - apply priority_analysis_label.
  - intros x Hx.
    destruct (elem_of_priority_analysis base x Hx) as (Hne & Horders & Hrev).
    unfold rows_with. rewrite Horders. split_and!; [done| |done].
    by destruct (filter _ base).
  - apply priority_analysis_ordered.
Qed.

(** ** The further properties on the small warehouse *)

Lemma base_df_monotone_witness :
  base_df tiny_warehouse ["ASIA"] (Date 1995 1 1) (Date 1995 12 31)
    `sublist_of` base_df tiny_warehouse ["ASIA"; "EUROPE"] min_date max_date
  ∧ (total_orders
       (load_filtered_data_uncached tiny_warehouse ["ASIA"]
          (Date 1995 1 1) (Date 1995 12 31))
     ≤ total_orders
         (load_filtered_data_uncached tiny_warehouse ["ASIA"; "EUROPE"]
            min_date max_date))%nat.
Proof.
  apply (base_df_monotone tiny_warehouse).
  - intros name Hname. apply list_elem_of_singleton in Hname.
    rewrite Hname. left.
  - reflexivity.
  - reflexivity.
Defined.

Lemma disjoint_regions_add_up_witness :
  base_df tiny_warehouse (["ASIA"] ++ ["EUROPE"]) min_date max_date
  ≡ₚ base_df tiny_warehouse ["ASIA"] min_date max_date
     ++ base_df tiny_warehouse ["EUROPE"] min_date max_date
  ∧ total_orders
      (load_filtered_data_uncached tiny_warehouse (["ASIA"] ++ ["EUROPE"])
         min_date max_date)
    = (total_orders
         (load_filtered_data_uncached tiny_warehouse ["ASIA"]
            min_date max_date)
       + total_orders
           (load_filtered_data_uncached tiny_warehouse ["EUROPE"]
              min_date max_date))%nat.
Proof.
  apply (disjoint_regions_add_up tiny_warehouse).
  intros name Hasia Heurope.
  apply list_elem_of_singleton in Hasia.
  apply list_elem_of_singleton in Heurope.
  rewrite Hasia in Heurope. discriminate Heurope.
Defined.

Lemma get_date_range_bounds_witness :
  let first := get_date_range tiny_warehouse fresh_resolver in
  first.1 = (Some (Date 1995 3 14), Some (Date 1996 1 9))
  ∧ match first.1 with
    | (Some lo, Some hi) =>
        lo ∈ O_ORDERDATE <$> ORDERS tiny_warehouse
        ∧ hi ∈ O_ORDERDATE <$> ORDERS tiny_warehouse
        ∧ ∀ o, o ∈ ORDERS tiny_warehouse →
               date_le lo (O_ORDERDATE o) ∧ date_le (O_ORDERDATE o) hi
    | (None, None) => ORDERS tiny_warehouse = []
    | _ => False
    end
    ∧ ∀ db', get_date_range db' first.2 = (first.1, first.2).
Proof.
  split; [reflexivity|].
  exact (get_date_range_bounds tiny_warehouse fresh_resolver eq_refl).
Defined.

Lemma defaults_select_everything_witness :
  let regions := get_regions tiny_warehouse fresh_resolver in
  regions.1 = ["ASIA"; "EUROPE"]
  ∧ base_df tiny_warehouse regions.1 (Date 1995 3 14) (Date 1996 1 9)
    = resolved_orders tiny_warehouse
  ∧ total_orders
      (load_filtered_data_uncached tiny_warehouse regions.1
         (Date 1995 3 14) (Date 1996 1 9))
    = length (resolved_orders tiny_warehouse).
Proof.
  split; [reflexivity|].
  exact (defaults_select_everything tiny_warehouse fresh_resolver
           (Date 1995 3 14) (Date 1996 1 9) eq_refl eq_refl eq_refl).
Defined.

Lemma first_call_respects_regions_witness :
  cache after_first_run !! cache_key ["ASIA"] (Date 1995 1 1) (Date 1995 12 31)
  = None
  ∧ let data := (load_filtered_data after_first_run ["ASIA"]
                   (Date 1995 1 1) (Date 1995 12 31)).1 in
    data = load_filtered_data_uncached (session after_first_run) ["ASIA"]
             (Date 1995 1 1) (Date 1995 12 31)
    ∧ (∀ x, x ∈ region_revenue data → ByRegion.R_NAME x ∈ ["ASIA"])
    ∧ (∀ x, x ∈ nation_revenue data → ByNation.R_NAME x ∈ ["ASIA"]).
Proof.
  assert (cache after_first_run
            !! cache_key ["ASIA"] (Date 1995 1 1) (Date 1995 12 31) = None)
    as Hmiss by (vm_compute; reflexivity).
  split; [exact Hmiss|].
  exact (first_call_respects_regions after_first_run ["ASIA"]
           (Date 1995 1 1) (Date 1995 12 31) Hmiss).
Defined.

Lemma region_change_is_not_rendered_witness :
  let first := page (start tiny_warehouse) ["ASIA"; "EUROPE"]
                 [min_date; max_date] in
  let later := (page first.2 ["EUROPE"] [Date 1995 1 1; Date 1995 12 31]).2 in
  reruns first.2 later
  ∧ page later ["ASIA"] [min_date; max_date] = (first.1, later).
Proof.
  intros first later.
  assert (reruns first.2 later) as Hlater
    by exact (reruns_step _ _ _ _ (reruns_refl _)).
  split; [exact Hlater|].
  apply (region_change_is_not_rendered (start tiny_warehouse)
           ["ASIA"; "EUROPE"] ["ASIA"] min_date max_date later).
  - discriminate.
  - discriminate.
  - exact Hlater.
Defined.

Lemma served_bundle_was_computed_witness :
  reachable tiny_warehouse after_first_run
  ∧ ["ASIA"] ≠ []
  ∧ ∃ regions0,
      regions0 ≠ []
      ∧ (cache after_first_run !! cache_key ["ASIA"] min_date max_date = None →
         regions0 = ["ASIA"])
      ∧ (load_filtered_data after_first_run ["ASIA"] min_date max_date).1
        = load_filtered_data_uncached tiny_warehouse regions0
            min_date max_date.
Proof.
  assert (reachable tiny_warehouse after_first_run) as Hreach
    by exact (reruns_step _ _ _ _ (reruns_refl _)).
  assert (["ASIA"] ≠ []) as Hne by discriminate.
  split; [exact Hreach|]. split; [exact Hne|].
  exact (served_bundle_was_computed tiny_warehouse after_first_run ["ASIA"]
           min_date max_date Hreach Hne).
Defined.

Lemma tiny_warehouse_keys :
  NoDup (C_CUSTKEY <$> CUSTOMER tiny_warehouse)
  ∧ NoDup (N_NATIONKEY <$> NATION tiny_warehouse)
  ∧ NoDup (R_REGIONKEY <$> REGION tiny_warehouse)
  ∧ (∀ o, o ∈ ORDERS tiny_warehouse →
          O_CUSTKEY o ∈ C_CUSTKEY <$> CUSTOMER tiny_warehouse)
  ∧ (∀ c, c ∈ CUSTOMER tiny_warehouse →
          C_NATIONKEY c ∈ N_NATIONKEY <$> NATION tiny_warehouse)
  ∧ (∀ n, n ∈ NATION tiny_warehouse →
          N_REGIONKEY n ∈ R_REGIONKEY <$> REGION tiny_warehouse).
Proof.
  split_and!.
  - apply (bool_decide_unpack _). vm_compute. exact I.
  - apply (bool_decide_unpack _). vm_compute. exact I.
  - apply (bool_decide_unpack _). vm_compute. exact I.
  - apply Forall_forall. apply (bool_decide_unpack _). vm_compute. exact I.
  - apply Forall_forall. apply (bool_decide_unpack _). vm_compute. exact I.
  - apply Forall_forall. apply (bool_decide_unpack _). vm_compute. exact I.
Defined.

Lemma orders_counted_at_most_once_witness :
  let in_range o :=
    date_le (Date 1995 1 1) (O_ORDERDATE o)
    ∧ date_le (O_ORDERDATE o) (Date 1995 12 31) in
  ord <$> base_df tiny_warehouse ["ASIA"] (Date 1995 1 1) (Date 1995 12 31)
    `sublist_of` filter in_range (ORDERS tiny_warehouse)
  ∧ (total_orders
       (load_filtered_data_uncached tiny_warehouse ["ASIA"]
          (Date 1995 1 1) (Date 1995 12 31))
     ≤ length (filter in_range (ORDERS tiny_warehouse)))%nat.
Proof.
  destruct tiny_warehouse_keys as (Hc & Hn & Hr & _).
  exact (orders_counted_at_most_once tiny_warehouse Hc Hn Hr ["ASIA"]
           (Date 1995 1 1) (Date 1995 12 31)).
Defined.

Lemma orders_counted_exactly_once_witness :
  let in_range o :=
    date_le (Date 1995 1 1) (O_ORDERDATE o)
    ∧ date_le (O_ORDERDATE o) (Date 1995 12 31) in
  ord <$> base_df tiny_warehouse ["ASIA"; "EUROPE"]
            (Date 1995 1 1) (Date 1995 12 31)
  = filter in_range (ORDERS tiny_warehouse)
  ∧ total_orders
      (load_filtered_data_uncached tiny_warehouse ["ASIA"; "EUROPE"]
         (Date 1995 1 1) (Date 1995 12 31))
    = length (filter in_range (ORDERS tiny_warehouse)).
Proof.
  destruct tiny_warehouse_keys as (Hc & Hn & Hr & Hoc & Hcn & Hnr).
  apply (orders_counted_exactly_once tiny_warehouse Hc Hn Hr Hoc Hcn Hnr).
  apply Forall_forall. apply (bool_decide_unpack _). vm_compute. exact I.
Defined.
